(** * The PostgreSQL query gateway of [server.py]

    A shallow embedding of [load_config], [get_connection],
    [is_read_only_query], [list_databases] and [execute_sql], and the
    properties of the gateway's specification settled against it.

    The functions run in a small state-and-exception monad.  The state is
    the record a recording test double of the database driver would keep:
    the trace of driver and logger calls, and the attributes of the one
    cursor a call creates.  What the server answers is a parameter. *)

From Stdlib Require Import List ZArith NArith Bool String Ascii Lia.
From Stdlib Require Import DecimalString Sorted Permutation.
Import ListNotations.
Local Open Scope Z_scope.

(* ================================================================== *)
(** * Python strings *)

(** A Python [str] is a sequence of Unicode code points. *)
Definition str := list N.

(** A literal of the source, character by character. *)
Definition lit (s : string) : str := map N_of_ascii (list_ascii_of_string s).

(** [str(n)] for an integer [n], as an f-string prints it. *)
Definition str_of_Z (z : Z) : str := lit (NilZero.string_of_int (Z.to_int z)).

Fixpoint str_eqb (a b : str) : bool :=
  match a, b with
  | [], [] => true
  | x :: a', y :: b' => N.eqb x y && str_eqb a' b'
  | _, _ => false
  end.

(** [s.startswith(p)] for a single prefix. *)
Fixpoint startswith (p s : str) : bool :=
  match p, s with
  | [], _ => true
  | _ :: _, [] => false
  | x :: p', y :: s' => N.eqb x y && startswith p' s'
  end.

(** [s.startswith(ps)] for a tuple of prefixes. *)
Definition startswith_any (ps : list str) (s : str) : bool :=
  existsb (fun p => startswith p s) ps.

(** [str.isspace] on one code point: the interpreter's ASCII table
    (tab to carriage return, the four separators 0x1C-0x1F, space) and the
    Unicode white-space code points. *)
Definition is_space (c : N) : bool :=
  ((9 <=? c) && (c <=? 13) || (28 <=? c) && (c <=? 32)
   || (c =? 133) || (c =? 160) || (c =? 5760)
   || (8192 <=? c) && (c <=? 8202)
   || (c =? 8232) || (c =? 8233) || (c =? 8239) || (c =? 8287)
   || (c =? 12288))%N.

Fixpoint lstrip (s : str) : str :=
  match s with
  | c :: s' => if is_space c then lstrip s' else s
  | [] => []
  end.

Definition rstrip (s : str) : str := rev (lstrip (rev s)).

(** [s.strip()] with no argument. *)
Definition strip (s : str) : str := rstrip (lstrip s).

(** Lexicographic order on code points: the order of [ORDER BY] on the
    catalog's [name] columns. *)
Fixpoint str_leb (a b : str) : bool :=
  match a, b with
  | [], _ => true
  | _ :: _, [] => false
  | x :: a', y :: b' => (x <? y)%N || (x =? y)%N && str_leb a' b'
  end.

(** The ASCII capitals in lower case, every other code point as it is. *)
Definition ascii_lower (c : N) : N :=
  if ((65 <=? c) && (c <=? 90))%N then (c + 32)%N else c.

Section Upper.

(** The upper-case mapping of the interpreter's Unicode database for the
    code points outside ASCII (one code point may map to several). *)
Variable unicode_upper : N -> str.

Definition upper_char (c : N) : str :=
  if (c <? 128)%N
  then [if (97 <=? c) && (c <=? 122) then c - 32 else c]%N
  else unicode_upper c.

(** [s.upper()]. *)
Definition upper (s : str) : str := flat_map upper_char s.

(** [is_read_only_query] of the source. *)
Definition safe_starts : list str :=
  [lit "SELECT"; lit "SHOW"; lit "DESCRIBE"; lit "EXPLAIN"; lit "WITH"].

Definition is_read_only_query (query : str) : bool :=
  let query_upper := upper (strip query) in
  startswith_any safe_starts query_upper.

End Upper.

(* ================================================================== *)
(** * Configuration, exceptions, values *)

(** The dictionary read from [config.json].  A key may be absent; a key
    that is present holds a value of the type the data model gives it. *)
Record Config := {
  host : option str;
  port : option Z;
  user : option str;
  password : option str;
  read_only : option bool;
  query_timeout : option Z;
  max_rows : option Z
}.

(** [config.get(key, default)]. *)
Definition config_get {A} (field : option A) (default : A) : A :=
  match field with Some v => v | None => default end.

(** The exceptions that occur, all of them subclasses of [Exception].
    [Psycopg2Error] stands for [psycopg2.Error] and its subclasses. *)
Inductive exn :=
| Psycopg2Error (msg : str)
| KeyError (key : str)
| FileNotFoundError (msg : str)
| JSONDecodeError (msg : str)
| UnicodeDecodeError (msg : str)
| OSError (msg : str)
| OverflowError (msg : str)
| OtherException (msg : str).

Definition is_psycopg2_error (e : exn) : bool :=
  match e with Psycopg2Error _ => true | _ => false end.

(** [str(e)]; a [KeyError] prints the [repr] of its key. *)
Definition str_exn (e : exn) : str :=
  match e with
  | Psycopg2Error m | FileNotFoundError m | JSONDecodeError m
  | UnicodeDecodeError m | OSError m | OverflowError m
  | OtherException m => m
  | KeyError k => lit "'" ++ k ++ lit "'"
  end.

(** Values of a result row. *)
Inductive Value :=
| VNone
| VBool (b : bool)
| VInt (z : Z)
| VStr (s : str).

(** An insertion-ordered [dict] with string keys. *)
Definition dict := list (str * Value).

Fixpoint dict_set (k : str) (v : Value) (d : dict) : dict :=
  match d with
  | [] => [(k, v)]
  | (k', v') :: d' =>
      if str_eqb k k' then (k, v) :: d' else (k', v') :: dict_set k v d'
  end.

Fixpoint dict_get (k : str) (d : dict) : option Value :=
  match d with
  | [] => None
  | (k', v) :: d' => if str_eqb k k' then Some v else dict_get k d'
  end.

(** [dict(items)]: a new dict that receives the items in their order. *)
Definition dict_of (items : dict) : dict :=
  fold_left (fun d kv => dict_set (fst kv) (snd kv) d) items [].

(* ================================================================== *)
(** * The driver and the server behind it *)

(** An entry of [cursor.description]; [desc[0]] is the column name. *)
Record Column := { col_name : str; type_code : Z }.

(** The keyword arguments of [psycopg2.connect]. *)
Record ConnectArgs := {
  a_host : str;
  a_port : Z;
  a_database : str;
  a_user : str;
  a_password : str;
  a_connect_timeout : Z
}.

(** What the server does with one statement: it fails, it answers with a
    result set (columns and all the matched rows), or it completes a
    command, with the affected-row count of its command tag if the tag has
    one. *)
Inductive Outcome :=
| Raises (e : exn)
| Tuples (cols : list Column) (tuples : list (list Value))
| Command (affected : option Z).

(** The driver calls other than [connect] and [execute]. *)
Inductive DriverCall :=
| CallCursor | CallFetch | CallCommit | CallCursorClose | CallClose.

(** The server as a call sees it: which connections it accepts, what each
    statement does, and which other driver call fails (a row that cannot
    be converted, a commit rejected, a connection lost). *)
Record Server := {
  srv_connect : ConnectArgs -> option exn;
  srv_run : str -> Outcome;
  srv_fault : DriverCall -> option exn
}.

(** What the test double records, in the order of the calls. *)
Inductive Event :=
| EvConnect (args : ConnectArgs) (opened : bool)
| EvCursor
| EvExecute (stmt : str)
| EvFetch (size : option Z)
| EvCommit
| EvCursorClose
| EvClose
| EvLogError (msg : str).

(** The attributes of a driver cursor.  [results] is [None] when the last
    statement left no result set to fetch from. *)
Record Cursor := {
  description : option (list Column);
  rowcount : Z;
  results : option (list (list Value))
}.

Definition new_cursor : Cursor :=
  {| description := None; rowcount := -1; results := None |}.

Record World := { trace : list Event; cursor : Cursor }.

Definition init : World := {| trace := []; cursor := new_cursor |}.

(* ================================================================== *)
(** * The monad: state passing with exceptions *)

Inductive result (A : Type) :=
| Return (a : A)
| Raise (e : exn).
Arguments Return {A} a.
Arguments Raise {A} e.

Definition M (A : Type) := World -> result A * World.

Definition ret {A} (a : A) : M A := fun w => (Return a, w).

Definition raise {A} (e : exn) : M A := fun w => (Raise e, w).

Definition bind {A B} (c : M A) (k : A -> M B) : M B :=
  fun w =>
    match c w with
    | (Return a, w') => k a w'
    | (Raise e, w') => (Raise e, w')
    end.

(** [try: body  except ... as e: handler e]; a handler that does not
    match re-raises. *)
Definition try_except {A} (body : M A) (handler : exn -> M A) : M A :=
  fun w =>
    match body w with
    | (Return a, w') => (Return a, w')
    | (Raise e, w') => handler e w'
    end.

Declare Scope gw_scope.
Delimit Scope gw_scope with gw.
Notation "x <- c ;; k" := (bind c (fun x => k))
  (at level 61, c at next level, right associativity) : gw_scope.
Notation "c ;; k" := (bind c (fun _ => k))
  (at level 61, right associativity) : gw_scope.
Local Open Scope gw_scope.

Definition record (e : Event) : M unit :=
  fun w => (Return tt, {| trace := trace w ++ [e]; cursor := cursor w |}).

Definition get_cursor : M Cursor := fun w => (Return (cursor w), w).

Definition set_cursor (c : Cursor) : M unit :=
  fun w => (Return tt, {| trace := trace w; cursor := c |}).

(** [logger.error(msg)]. *)
Definition logger_error (msg : str) : M unit := record (EvLogError msg).

(** [config[key]]. *)
Definition config_item {A} (key : string) (field : option A) : M A :=
  match field with
  | Some v => ret v
  | None => raise (KeyError (lit key))
  end.

(* ================================================================== *)
(** * The gateway *)

Section Gateway.

Variable unicode_upper : N -> str.

(** The module-level [config]. *)
Variable config : Config.

Variable srv : Server.

(** ** The driver: [psycopg2] with a [RealDictCursor] *)

(** A driver call that has no result of its own. *)
Definition driver_call (c : DriverCall) (e : Event) : M unit :=
  record e ;;
  match srv_fault srv c with
  | Some x => raise x
  | None => ret tt
  end.

Definition psycopg2_connect (args : ConnectArgs) : M unit :=
  match srv_connect srv args with
  | Some x => record (EvConnect args false) ;; raise x
  | None => record (EvConnect args true)
  end.

(** [conn.cursor(cursor_factory=RealDictCursor)]. *)
Definition conn_cursor : M unit :=
  driver_call CallCursor EvCursor ;; set_cursor new_cursor.

(** The [rowcount] the driver derives from a command's tag: the count
    if the tag has one, else -1. *)
Definition command_rowcount (affected : option Z) : Z :=
  match affected with Some n => n | None => -1 end.

(** [cursor.execute(stmt)]. *)
Definition cursor_execute (stmt : str) : M unit :=
  record (EvExecute stmt) ;;
  match srv_run srv stmt with
  | Raises x => raise x
  | Tuples cols tuples =>
      set_cursor {| description := Some cols;
                    rowcount := Z.of_nat (List.length tuples);
                    results := Some tuples |}
  | Command affected =>
      set_cursor {| description := None;
                    rowcount := command_rowcount affected;
                    results := None |}
  end.

(** The row a [RealDictCursor] builds: a dict keyed by column name. *)
Definition real_dict_row (cols : list Column) (tuple : list Value) : dict :=
  dict_of (combine (map col_name cols) tuple).

(** The entries of [cursor.description], none when it is [None]. *)
Definition described (c : Cursor) : list Column :=
  match description c with Some cols => cols | None => [] end.

(** The common part of [fetchmany] and [fetchall]: hand out the first
    [n] rows that are pending. *)
Definition fetch (size : option Z) (n : list (list Value) -> nat)
  : M (list dict) :=
  driver_call CallFetch (EvFetch size) ;;
  c <- get_cursor ;;
  match results c with
  | None => raise (Psycopg2Error (lit "no results to fetch"))
  | Some pending =>
      set_cursor {| description := description c;
                    rowcount := rowcount c;
                    results := Some (skipn (n pending) pending) |} ;;
      ret (map (real_dict_row (described c)) (firstn (n pending) pending))
  end.

(** The range of a C [long] on the 64-bit platforms the driver is built
    for: [fetchmany] converts its size to one. *)
Definition LONG_MIN : Z := -9223372036854775808.
Definition LONG_MAX : Z := 9223372036854775807.

Definition fits_long (z : Z) : bool := (LONG_MIN <=? z) && (z <=? LONG_MAX).

(** [cursor.fetchmany(size)].  A size outside the range of a C [long]
    raises [OverflowError] before anything is fetched; a size that is
    negative or larger than what is pending stands for all that is
    pending. *)
Definition cursor_fetchmany (size : Z) : M (list dict) :=
  if fits_long size then
    fetch (Some size)
          (fun pending =>
             if (size >? Z.of_nat (List.length pending)) || (size <? 0)
             then List.length pending else Z.to_nat size)
  else
    record (EvFetch (Some size)) ;;
    raise (OverflowError (lit "Python int too large to convert to C long")).

(** [cursor.fetchall()]. *)
Definition cursor_fetchall : M (list dict) :=
  fetch None (fun pending => List.length pending).

Definition conn_commit : M unit := driver_call CallCommit EvCommit.

Definition cursor_close : M unit := driver_call CallCursorClose EvCursorClose.

Definition conn_close : M unit := driver_call CallClose EvClose.

(** ** [get_connection] *)

Definition get_connection (database : str) : M unit :=
  try_except
    (h <- config_item "host" (host config) ;;
     p <- config_item "port" (port config) ;;
     u <- config_item "user" (user config) ;;
     pw <- config_item "password" (password config) ;;
     psycopg2_connect
       {| a_host := h; a_port := p; a_database := database;
          a_user := u; a_password := pw;
          a_connect_timeout := config_get (query_timeout config) 30 |})
    (fun e =>
       if is_psycopg2_error e
       then logger_error (lit "Database connection error: " ++ str_exn e) ;;
            raise e
       else raise e).

(** ** [list_databases] *)

(** The response dict of [list_databases]: [count] is present on
    success only, [message] on failure only. *)
Record Listing := {
  l_status : str;
  l_databases : list Value;
  l_count : option Z;
  l_message : option str
}.

Definition newline : str := [10%N].

(** The triple-quoted introspection query, with the line ends and the
    indentation it has in the source. *)
Definition list_databases_query : str :=
  newline
  ++ lit "            SELECT datname as database_name " ++ newline
  ++ lit "            FROM pg_database " ++ newline
  ++ lit "            WHERE datistemplate = false " ++ newline
  ++ lit "            ORDER BY datname" ++ newline
  ++ lit "        ".

(** [[row['database_name'] for row in results]]. *)
Fixpoint database_names (rows : list dict) : M (list Value) :=
  match rows with
  | [] => ret []
  | row :: rows' =>
      match dict_get (lit "database_name") row with
      | None => raise (KeyError (lit "database_name"))
      | Some v => vs <- database_names rows' ;; ret (v :: vs)
      end
  end.

(** The [try] block of [list_databases]. *)
Definition list_databases_try : M Listing :=
  get_connection (lit "postgres") ;;
  conn_cursor ;;
  cursor_execute list_databases_query ;;
  rows <- cursor_fetchall ;;
  cursor_close ;;
  conn_close ;;
  databases <- database_names rows ;;
  ret {| l_status := lit "success";
         l_databases := databases;
         l_count := Some (Z.of_nat (List.length databases));
         l_message := None |}.

Definition list_databases : M Listing :=
  try_except
    list_databases_try
    (fun e =>
       logger_error (lit "Error listing databases: " ++ str_exn e) ;;
       ret {| l_status := lit "error";
              l_databases := [];
              l_count := None;
              l_message := Some (str_exn e) |}).

(** ** [execute_sql] *)

(** The response dict of [execute_sql]. *)
Record Response := {
  status : str;
  message : str;
  rows : list dict;
  row_count : Z;
  columns : list str
}.

Definition error_response (msg : str) : Response :=
  {| status := lit "error"; message := msg;
     rows := []; row_count := 0; columns := [] |}.

(** Truth value of [cursor.description]: [None] and the empty tuple are
    false. *)
Definition truthy (d : option (list Column)) : bool :=
  match d with
  | Some (_ :: _) => true
  | _ => false
  end.

(** The [try] block of [execute_sql]. *)
Definition execute_sql_try (database query : str) : M Response :=
  if config_get (read_only config) false
     && negb (is_read_only_query unicode_upper query)
  then
    ret (error_response
           (lit "Server is in read-only mode. Only SELECT queries are allowed."))
  else
    get_connection database ;;
    conn_cursor ;;
    let timeout_ms := config_get (query_timeout config) 30 * 1000 in
    cursor_execute (lit "SET statement_timeout = " ++ str_of_Z timeout_ms) ;;
    cursor_execute query ;;
    c <- get_cursor ;;
    if truthy (description c) then
      let columns := map col_name (described c) in
      let max_rows := config_get (max_rows config) 1000 in
      fetched <- cursor_fetchmany max_rows ;;
      let results := map dict_of fetched in
      let row_count := Z.of_nat (List.length results) in
      let message :=
        lit "Query executed successfully. Returned "
        ++ str_of_Z row_count ++ lit " rows." in
      c' <- get_cursor ;;
      let message :=
        if rowcount c' >? max_rows
        then message ++ lit " (Limited to " ++ str_of_Z max_rows
             ++ lit " rows)"
        else message in
      cursor_close ;;
      conn_close ;;
      ret {| status := lit "success"; rows := results;
             row_count := row_count; columns := columns;
             message := message |}
    else
      conn_commit ;;
      c' <- get_cursor ;;
      let row_count := rowcount c' in
      cursor_close ;;
      conn_close ;;
      ret {| status := lit "success"; rows := [];
             row_count := row_count; columns := [];
             message := lit "Query executed successfully. "
                        ++ str_of_Z row_count ++ lit " rows affected." |}.

Definition execute_sql (database query : str) : M Response :=
  try_except
    (execute_sql_try database query)
    (fun e =>
       if is_psycopg2_error e then
         logger_error (lit "Database error: " ++ str_exn e) ;;
         ret (error_response (lit "Database error: " ++ str_exn e))
       else
         logger_error (lit "Unexpected error: " ++ str_exn e) ;;
         ret (error_response (lit "Error: " ++ str_exn e))).

End Gateway.

(* ================================================================== *)
(** * Start-up *)









(** ** The document as the configuration the operations read *)






(** The first of the keys [get_connection] reads, in the order it reads
    them, that the configuration lacks. *)
Definition first_absent (config : Config) : option str :=
  match host config, port config, user config, password config with
  | None, _, _, _ => Some (lit "host")
  | Some _, None, _, _ => Some (lit "port")
  | Some _, Some _, None, _ => Some (lit "user")
  | Some _, Some _, Some _, None => Some (lit "password")
  | Some _, Some _, Some _, Some _ => None
  end.

(* ================================================================== *)
(** * Reading a trace *)

(** Calls of [psycopg2.connect], whatever their outcome. *)
Definition connect_calls (t : list Event) : nat :=
  List.length (filter (fun e => match e with EvConnect _ _ => true | _ => false end) t).

(** Connections handed out. *)
Definition acquisitions (t : list Event) : nat :=
  List.length (filter (fun e => match e with EvConnect _ true => true | _ => false end) t).

(** Calls of [conn.close()]. *)
Definition closes (t : list Event) : nat :=
  List.length (filter (fun e => match e with EvClose => true | _ => false end) t).


(** [p] is a prefix of [s], as a proposition. *)
Definition starts_with (p s : str) : Prop := exists rest, s = p ++ rest.

(** The required keys of the configuration are all there. *)
Definition complete (config : Config) : Prop :=
  host config <> None /\ port config <> None
  /\ user config <> None /\ password config <> None.

(** The call passes the policy gate of [execute_sql]. *)
Definition passes_gate (up : N -> str) (config : Config) (query : str) : bool :=
  negb (config_get (read_only config) false && negb (is_read_only_query up query)).

(** No driver call other than [connect] and [execute] fails. *)
Definition sound (srv : Server) : Prop := forall c, srv_fault srv c = None.

(** The statement [execute_sql] sends before the caller's query. *)
Definition set_timeout (ms : Z) : str :=
  lit "SET statement_timeout = " ++ str_of_Z ms.

(** The server accepts every connection to [database]. *)
Definition accepts (srv : Server) (database : str) : Prop :=
  forall args, a_database args = database -> srv_connect srv args = None.

(** The server does not fail on [stmt]. *)
Definition executes (srv : Server) (stmt : str) : Prop :=
  forall e, srv_run srv stmt <> Raises e.

(* ================================================================== *)
(** * The server's catalog *)

(** A row of [pg_database]. *)
Record Database := { datname : str; datistemplate : bool }.

Fixpoint insert_name (n : str) (l : list str) : list str :=
  match l with
  | [] => [n]
  | m :: l' => if str_leb n m then n :: l else m :: insert_name n l'
  end.

Definition order_by_name (l : list str) : list str :=
  fold_right insert_name [] l.

(** What the query of [list_databases] asks a server whose catalog is
    [pg_database] for: the names of the rows with [datistemplate = false]
    in one column [database_name], ordered by name. *)
Definition select_databases (pg_database : list Database) : Outcome :=
  Tuples [{| col_name := lit "database_name"; type_code := 19 |}]
         (map (fun n => [VStr n])
              (order_by_name
                 (map datname
                      (filter (fun d => negb (datistemplate d)) pg_database)))).

(** ** The statements a server reads from its catalog *)

(** The words of a statement, which white space separates. *)
Fixpoint words_from (word : str) (s : str) : list str :=
  match s with
  | [] => match word with [] => [] | _ => [rev word] end
  | c :: s' =>
      if is_space c
      then match word with
           | [] => words_from [] s'
           | _ => rev word :: words_from [] s'
           end
      else words_from (c :: word) s'
  end.

Definition words (s : str) : list str := words_from [] s.

(** A key word or an unquoted name, which SQL reads without regard to
    case. *)
Definition word_is (name : string) (w : str) : bool :=
  str_eqb (map ascii_lower w) (lit name).

Definition syntax_error : Outcome :=
  Raises (Psycopg2Error (lit "syntax error")).

(** [WHERE datistemplate = false] or [= true], where the words begin
    with WHERE: the value asked for, if any, and the words that
    follow. *)
Definition where_clause (ws : list str) : option (option bool * list str) :=
  match ws with
  | [] => Some (None, [])
  | w :: rest =>
      if word_is "where" w then
        match rest with
        | c :: eq :: b :: rest' =>
            if word_is "datistemplate" c && str_eqb eq (lit "=") then
              if word_is "false" b then Some (Some false, rest')
              else if word_is "true" b then Some (Some true, rest')
              else None
            else None
        | _ => None
        end
      else Some (None, ws)
  end.

(** [ORDER BY datname], or nothing, at the end of the statement. *)
Definition order_clause (ws : list str) : option bool :=
  match ws with
  | [] => Some false
  | [o; b; c] =>
      if word_is "order" o && word_is "by" b && word_is "datname" c
      then Some true else None
  | _ => None
  end.

(** What a server whose catalog is [pg_database] answers to a statement
    [SELECT datname AS alias FROM pg_database], with or without the
    clauses [WHERE datistemplate = ...] and [ORDER BY datname]: the
    names of the rows the condition keeps, in the catalog's order unless
    an order is asked for, in one column called by the alias.  Anything
    else is a syntax error to it. *)
Definition catalog_answer (pg_database : list Database) (stmt : str)
  : Outcome :=
  match words stmt with
  | s :: c :: a :: alias :: f :: t :: rest =>
      if word_is "select" s && word_is "datname" c && word_is "as" a
         && word_is "from" f && word_is "pg_database" t
      then
        match where_clause rest with
        | Some (condition, rest') =>
            match order_clause rest' with
            | Some ordered =>
                let selected :=
                  match condition with
                  | Some b =>
                      filter (fun d => if b then datistemplate d
                                       else negb (datistemplate d))
                             pg_database
                  | None => pg_database
                  end in
                let names := map datname selected in
                Tuples [{| col_name := map ascii_lower alias;
                           type_code := 19 |}]
                       (map (fun n => [VStr n])
                            (if ordered then order_by_name names else names))
            | None => syntax_error
            end
        | None => syntax_error
        end
      else syntax_error
  | _ => syntax_error
  end.

(* ================================================================== *)
(** * Vocabulary of the properties *)

(** What a computation returns, whenever it returns. *)
Definition returns_only {A} (c : M A) (P : A -> Prop) : Prop :=
  forall w a w', c w = (Return a, w') -> P a.

(** The shape every response of [execute_sql] has. *)
Definition well_formed (r : Response) : Prop :=
  (status r = lit "success" \/ status r = lit "error")
  /\ (status r = lit "error" ->
      rows r = [] /\ row_count r = 0 /\ columns r = []).

(** The response of [list_databases] for an exception [e]. *)
Definition listing_failure (e : exn) : Listing :=
  {| l_status := lit "error"; l_databases := [];
     l_count := None; l_message := Some (str_exn e) |}.

(** The two shapes a response of [list_databases] has. *)
Definition listing_well_formed (l : Listing) : Prop :=
  (l_status l = lit "success"
   /\ l_count l = Some (Z.of_nat (List.length (l_databases l)))
   /\ l_message l = None)
  \/ (exists e, l = listing_failure e).

(** The response with which [execute_sql] refuses a query in read-only
    mode. *)
Definition refusal : Response :=
  error_response
    (lit "Server is in read-only mode. Only SELECT queries are allowed.").

(** The computation only appends to the trace. *)
Definition appends {A} (c : M A) : Prop :=
  forall w, exists t, trace (snd (c w)) = trace w ++ t.

(** The state [w] with the events [t] recorded after it. *)
Definition logged (w : World) (t : list Event) : World :=
  {| trace := trace w ++ t; cursor := cursor w |}.

(** The cursor after a statement that did not fail. *)
Definition executed (o : Outcome) (before : Cursor) : Cursor :=
  match o with
  | Raises _ => before
  | Tuples cols tuples =>
      {| description := Some cols; rowcount := Z.of_nat (List.length tuples);
         results := Some tuples |}
  | Command affected =>
      {| description := None; rowcount := command_rowcount affected;
         results := None |}
  end.

(** The state in which the outcome of the caller's query is classified. *)
Definition classifying (args : ConnectArgs) (ms : Z) (query : str)
    (c : Cursor) : World :=
  {| trace := [EvConnect args true; EvCursor; EvExecute (set_timeout ms);
               EvExecute query];
     cursor := c |}.

(** An upper-case ASCII letter, a digit or an underscore: a character
    that continues a word. *)
Definition word_char (c : N) : bool :=
  ((48 <=? c) && (c <=? 57) || (65 <=? c) && (c <=? 90) || (c =? 95))%N.

(** The order of [str_leb] as a relation. *)
Definition str_le (a b : str) : Prop := str_leb a b = true.

(** The names the catalog holds for databases that are not templates. *)
Definition plain_databases (pg_database : list Database) : list str :=
  map datname (filter (fun d => negb (datistemplate d)) pg_database).

(** All the characters of [s] are white space. *)
Definition blank (s : str) : Prop := Forall (fun c => is_space c = true) s.

(** [args] are the keyword arguments [get_connection] builds for
    [database] from the configuration. *)
Definition configured (config : Config) (database : str) (args : ConnectArgs)
  : Prop :=
  host config = Some (a_host args)
  /\ port config = Some (a_port args)
  /\ a_database args = database
  /\ user config = Some (a_user args)
  /\ password config = Some (a_password args)
  /\ a_connect_timeout args = config_get (query_timeout config) 30.

(** The message of the error response [execute_sql] builds for [e]. *)
Definition failure_message (e : exn) : str :=
  (if is_psycopg2_error e then lit "Database error: " else lit "Error: ")
  ++ str_exn e.

(** The line [execute_sql] logs for [e]. *)
Definition failure_log (e : exn) : str :=
  (if is_psycopg2_error e
   then lit "Database error: " else lit "Unexpected error: ")
  ++ str_exn e.

(** What [get_connection] logs for [e] before it raises it again. *)
Definition connection_log (e : exn) : list Event :=
  if is_psycopg2_error e
  then [EvLogError (lit "Database connection error: " ++ str_exn e)]
  else [].

(** The computation appends to the trace only events that satisfy [P]. *)
Definition emits {A} (P : Event -> Prop) (c : M A) : Prop :=
  forall w, exists t, trace (snd (c w)) = trace w ++ t /\ Forall P t.

Definition not_connect (e : Event) : Prop :=
  match e with EvConnect _ _ => False | _ => True end.

(* ================================================================== *)
(** * Test doubles *)

Module Double.

(** An upper-case table that leaves the code points outside ASCII as
    they are. *)
Definition plain_upper (c : N) : str := [c].

Definition writable : Config :=
  {| host := Some (lit "localhost"); port := Some 5432;
     user := Some (lit "postgres"); password := Some (lit "secret");
     read_only := None; query_timeout := None; max_rows := None |}.

Definition readonly : Config :=
  {| host := Some (lit "localhost"); port := Some 5432;
     user := Some (lit "postgres"); password := Some (lit "secret");
     read_only := Some true; query_timeout := Some 5; max_rows := Some 2 |}.


(** The configuration that lacks only the password. *)
Definition unlocked : Config :=
  {| host := Some (lit "localhost"); port := Some 5432;
     user := Some (lit "postgres"); password := None;
     read_only := None; query_timeout := None; max_rows := None |}.


Definition capped (n : Z) : Config :=
  {| host := Some (lit "localhost"); port := Some 5432;
     user := Some (lit "postgres"); password := Some (lit "secret");
     read_only := None; query_timeout := None; max_rows := Some n |}.

Definition id_column : Column := {| col_name := lit "id"; type_code := 23 |}.

Definition pg_database : list Database :=
  [ {| datname := lit "sales"; datistemplate := false |};
    {| datname := lit "template1"; datistemplate := true |};
    {| datname := lit "postgres"; datistemplate := false |};
    {| datname := lit "template0"; datistemplate := true |};
    {| datname := lit "hr"; datistemplate := false |} ].

(** A server with a table [t] of five rows: it answers the queries the
    examples use, reads its catalog, and rejects everything else as a
    syntax error. *)
Definition run (stmt : str) : Outcome :=
  if str_eqb stmt (lit "SELECT id FROM t ORDER BY id") then
    Tuples [id_column] [[VInt 1]; [VInt 2]; [VInt 3]; [VInt 4]; [VInt 5]]
  else if str_eqb stmt (lit "SELECT FROM t") then
    Tuples [] [[]; []; []; []; []]
  else if str_eqb stmt (lit "showing off") then
    Raises (Psycopg2Error (lit "syntax error at or near showing"))
  else if str_eqb stmt (lit "INSERT INTO t(id) VALUES (6)") then
    Command (Some 1)
  else if str_eqb stmt (lit "CREATE TABLE u (x int)") then
    Command None
  else if startswith (lit "SET statement_timeout = ") stmt then
    Command None
  else
    catalog_answer pg_database stmt.

Definition server : Server :=
  {| srv_connect := fun _ => None;
     srv_run := run;
     srv_fault := fun _ => None |}.

(** A server that accepts connections and denies every statement. *)
Definition locked : Server :=
  {| srv_connect := fun _ => None;
     srv_run := fun _ => Raises (Psycopg2Error (lit "permission denied"));
     srv_fault := fun _ => None |}.

End Double.

(* ================================================================== *)
(** * Further test doubles *)

Module Scenario.

(** A server that cannot be reached. *)
Definition unreachable : Server :=
  {| srv_connect := fun _ => Some (Psycopg2Error (lit "connection refused"));
     srv_run := Double.run;
     srv_fault := fun _ => None |}.

(** A server that lets no session change its settings. *)
Definition no_settings : Server :=
  {| srv_connect := fun _ => None;
     srv_run := fun stmt =>
       if startswith (lit "SET ") stmt
       then Raises (Psycopg2Error (lit "permission denied"))
       else Double.run stmt;
     srv_fault := fun _ => None |}.

(** A server that is lost when the transaction is committed. *)
Definition no_commit : Server :=
  {| srv_connect := fun _ => None;
     srv_run := Double.run;
     srv_fault := fun c =>
       match c with
       | CallCommit => Some (Psycopg2Error (lit "connection lost"))
       | _ => None
       end |}.

(** The server of the examples, which also answers an insertion that
    returns the new row and a read followed by a deletion. *)
Definition run (stmt : str) : Outcome :=
  if str_eqb stmt (lit "INSERT INTO t(id) VALUES (7) RETURNING id") then
    Tuples [Double.id_column] [[VInt 7]]
  else if str_eqb stmt (lit "SELECT 1; DELETE FROM t") then
    Command (Some 5)
  else Double.run stmt.

Definition server : Server :=
  {| srv_connect := fun _ => None;
     srv_run := run;
     srv_fault := fun _ => None |}.

(** A server that answers the introspection query with names in an
    order of its own, a template among them. *)
Definition unordered : Server :=
  {| srv_connect := fun _ => None;
     srv_run := fun stmt =>
       if str_eqb stmt list_databases_query
       then Tuples [{| col_name := lit "database_name"; type_code := 19 |}]
                   [[VStr (lit "zoo")]; [VStr (lit "template1")];
                    [VStr (lit "app")]]
       else Double.run stmt;
     srv_fault := fun _ => None |}.

(** A server that answers a query with two columns of one name. *)
Definition twins : Server :=
  {| srv_connect := fun _ => None;
     srv_run := fun stmt =>
       if str_eqb stmt (lit "SELECT 1 AS a, 2 AS a")
       then Tuples [{| col_name := lit "a"; type_code := 23 |};
                    {| col_name := lit "a"; type_code := 23 |}]
                   [[VInt 1; VInt 2]]
       else Double.run stmt;
     srv_fault := fun _ => None |}.

End Scenario.

(* ================================================================== *)
(** * Laws of the monad *)

Lemma bind_returns {A B} (c : M A) (k : A -> M B) w b w' :
  bind c k w = (Return b, w') ->
  exists a w1, c w = (Return a, w1) /\ k a w1 = (Return b, w').
Proof.
  unfold bind. destruct (c w) as [[a | e] w1]; intro H.
  - exists a, w1. split; [reflexivity | exact H].
  - discriminate H.
Qed.

Lemma returns_only_ret {A} (a : A) (P : A -> Prop) :
  P a -> returns_only (ret a) P.
Proof. intros Ha w a' w' H. inversion H; subst. exact Ha. Qed.

Lemma returns_only_bind {A B} (c : M A) (k : A -> M B) (P : B -> Prop) :
  (forall a, returns_only (k a) P) -> returns_only (bind c k) P.
Proof.
  intros Hk w b w' H. apply bind_returns in H as (a & w1 & _ & H).
  exact (Hk a w1 b w' H).
Qed.

(** A [try] whose handlers all return lets nothing through. *)
Lemma try_except_total {A} (body : M A) (handler : exn -> M A) (P : A -> Prop) w :
  returns_only body P ->
  (forall e w', exists a w'', handler e w' = (Return a, w'') /\ P a) ->
  exists a w', try_except body handler w = (Return a, w') /\ P a.
Proof.
  intros Hbody Hhandler. unfold try_except.
  destruct (body w) as [[a | e] w'] eqn:E.
  - exists a, w'. split; [reflexivity | exact (Hbody _ _ _ E)].
  - apply Hhandler.
Qed.

(** Unfolding of the monad's plumbing, leaving string literals alone. *)
Ltac plumb :=
  unfold logger_error, config_item in *;
  unfold try_except, bind, ret, raise, record, get_cursor, set_cursor in *;
  cbn [config_get trace cursor description rowcount results fst snd
       is_psycopg2_error] in *.

(* ================================================================== *)
(** * No exception leaves an operation *)

Lemma error_response_well_formed msg : well_formed (error_response msg).
Proof. split; [right; reflexivity | intros _; repeat split]. Qed.

Lemma success_well_formed m rs n cs :
  well_formed {| status := lit "success"; message := m; rows := rs;
                 row_count := n; columns := cs |}.
Proof.
  split; [left; reflexivity |].
  cbn [status]. intro H. apply (f_equal (@List.length N)) in H. discriminate H.
Qed.

Lemma try_raises {A} (c : M A) h w e w1 :
  c w = (Raise e, w1) -> try_except c h w = h e w1.
Proof. unfold try_except. intros ->. reflexivity. Qed.

Lemma try_passes {A} (c : M A) h w a w1 :
  c w = (Return a, w1) -> try_except c h w = (Return a, w1).
Proof. unfold try_except. intros ->. reflexivity. Qed.

(** What the [try] block of [execute_sql] returns, when it returns: the
    refusal of the gate or a success. *)
Lemma execute_sql_try_returns up config srv database query :
  returns_only (execute_sql_try up config srv database query)
               (fun r => r = refusal \/ status r = lit "success").
Proof.
  unfold execute_sql_try. destruct (_ && _).
  - apply returns_only_ret. left. reflexivity.
  - repeat (apply returns_only_bind; intros).
    destruct (truthy _);
      repeat (apply returns_only_bind; intros);
      apply returns_only_ret; right; reflexivity.
Qed.

Lemma list_databases_try_returns config srv :
  returns_only (list_databases_try config srv)
               (fun l => l_status l = lit "success"
                         /\ l_count l
                            = Some (Z.of_nat (List.length (l_databases l)))
                         /\ l_message l = None).
Proof.
  unfold list_databases_try. repeat (apply returns_only_bind; intros).
  apply returns_only_ret. repeat split.
Qed.

(** C5.  No exception leaves [execute_sql] or [list_databases]: from
    every state and for every behaviour of the server each returns a
    response.  Whatever exception [e] the [try] block raises is turned
    into the error response for [e], after one line is logged:
    [Database error: ] or [Error: ] and the text of [e], with no rows,
    no columns and row count 0, for [execute_sql]; the text of [e] and no
    databases for [list_databases].  A response of [execute_sql] has
    status success or error; with status error it carries no rows, no
    columns and row count 0, and it comes from an exception or is the
    refusal of the gate. *)
Theorem operations_never_raise up config srv database query w :
  (exists r w', execute_sql up config srv database query w = (Return r, w')
      /\ well_formed r)
  /\ (exists l w', list_databases config srv w = (Return l, w')
       /\ listing_well_formed l)
  /\ (forall e w',
        execute_sql_try up config srv database query w = (Raise e, w') ->
        execute_sql up config srv database query w
        = (Return (error_response (failure_message e)),
           logged w' [EvLogError (failure_log e)]))
  /\ (forall e w',
        list_databases_try config srv w = (Raise e, w') ->
        list_databases config srv w
        = (Return (listing_failure e),
           logged w' [EvLogError (lit "Error listing databases: "
                                  ++ str_exn e)]))
  /\ (forall r w',
        execute_sql up config srv database query w = (Return r, w') ->
        status r = lit "error" ->
        r = refusal
        \/ exists e w1,
             execute_sql_try up config srv database query w = (Raise e, w1)
             /\ r = error_response (failure_message e)).
Proof.
  assert (Hraised : forall e w',
    execute_sql_try up config srv database query w = (Raise e, w') ->
    execute_sql up config srv database query w
    = (Return (error_response (failure_message e)),
       logged w' [EvLogError (failure_log e)])).
  { intros e w' E. unfold execute_sql. rewrite (try_raises _ _ _ _ _ E).
    unfold failure_message, failure_log. destruct e; reflexivity. }
  assert (Hlisting : forall e w',
    list_databases_try config srv w = (Raise e, w') ->
    list_databases config srv w
    = (Return (listing_failure e),
       logged w' [EvLogError (lit "Error listing databases: " ++ str_exn e)])).
  { intros e w' E. unfold list_databases. rewrite (try_raises _ _ _ _ _ E).
    reflexivity. }
  repeat apply conj.
  - destruct (execute_sql_try up config srv database query w)
      as [[r | e] w'] eqn:E.
    + exists r, w'. split.
      * unfold execute_sql. apply try_passes. exact E.
      * destruct (execute_sql_try_returns _ _ _ _ _ _ _ _ E) as [-> | Hs].
        -- apply error_response_well_formed.
        -- split; [left; exact Hs |]. intro He. rewrite Hs in He.
           cbv in He. discriminate He.
    + eexists _, _. split; [exact (Hraised e w' eq_refl) |].
      apply error_response_well_formed.
  - destruct (list_databases_try config srv w) as [[l | e] w'] eqn:E.
    + exists l, w'. split.
      * unfold list_databases. apply try_passes. exact E.
      * left. exact (list_databases_try_returns _ _ _ _ _ E).
    + eexists _, _. split; [exact (Hlisting e w' eq_refl) |].
      right. exists e. reflexivity.
  - exact Hraised.
  - exact Hlisting.
  - intros r w' Hrun Hs.
    destruct (execute_sql_try up config srv database query w)
      as [[r0 | e] w0] eqn:E.
    + unfold execute_sql in Hrun. rewrite (try_passes _ _ _ _ _ E) in Hrun.
      inversion Hrun; subst r0 w0.
      destruct (execute_sql_try_returns _ _ _ _ _ _ _ _ E) as [-> | Hs'].
      * left. reflexivity.
      * rewrite Hs' in Hs. cbv in Hs. discriminate Hs.
    + right. exists e, w0. split; [reflexivity |].
      rewrite (Hraised e w0 eq_refl) in Hrun. inversion Hrun. reflexivity.
Qed.

(** C5 on a statement the server rejects, and on a server that cannot
    be reached. *)
Lemma operations_never_raise_witness :
  (exists w',
      execute_sql Double.plain_upper Double.writable Double.server
        (lit "db") (lit "SELEC 1") init
      = (Return {| status := lit "error";
                   message := lit "Database error: syntax error";
                   rows := []; row_count := 0; columns := [] |}, w'))
  /\ (exists w',
        list_databases Double.writable Scenario.unreachable init
        = (Return {| l_status := lit "error"; l_databases := [];
                     l_count := None;
                     l_message := Some (lit "connection refused") |}, w')).
Proof.
  split.
  - destruct (operations_never_raise Double.plain_upper Double.writable
                Double.server (lit "db") (lit "SELEC 1") init)
      as (_ & _ & H & _).
    eexists.
    apply (H (Psycopg2Error (lit "syntax error"))
             (snd (execute_sql_try Double.plain_upper Double.writable
                     Double.server (lit "db") (lit "SELEC 1") init))).
    vm_compute. reflexivity.
  - destruct (operations_never_raise Double.plain_upper Double.writable
                Scenario.unreachable (lit "db") (lit "SELECT 1") init)
      as (_ & _ & _ & H & _).
    eexists.
    apply (H (Psycopg2Error (lit "connection refused"))
             (snd (list_databases_try Double.writable Scenario.unreachable
                     init))).
    vm_compute. reflexivity.
Defined.

(* ================================================================== *)
(** * The trace only grows *)

Lemma appends_ret {A} (a : A) : appends (ret a).
Proof. intro w. exists []. symmetry. apply app_nil_r. Qed.

Lemma appends_raise {A} e : appends (@raise A e).
Proof. intro w. exists []. symmetry. apply app_nil_r. Qed.

Lemma appends_record e : appends (record e).
Proof. intro w. exists [e]. reflexivity. Qed.

Lemma appends_get_cursor : appends get_cursor.
Proof. intro w. exists []. symmetry. apply app_nil_r. Qed.

Lemma appends_set_cursor c : appends (set_cursor c).
Proof. intro w. exists []. symmetry. apply app_nil_r. Qed.

Lemma appends_bind {A B} (c : M A) (k : A -> M B) :
  appends c -> (forall a, appends (k a)) -> appends (bind c k).
Proof.
  intros Hc Hk w. unfold bind. destruct (Hc w) as [t1 H1].
  destruct (c w) as [[a | e] w1]; cbn [snd] in *.
  - destruct (Hk a w1) as [t2 H2]. exists (t1 ++ t2).
    rewrite H2, H1. symmetry. apply app_assoc.
  - exists t1. exact H1.
Qed.

Lemma appends_try {A} (body : M A) (handler : exn -> M A) :
  appends body -> (forall e, appends (handler e)) ->
  appends (try_except body handler).
Proof.
  intros Hc Hk w. unfold try_except. destruct (Hc w) as [t1 H1].
  destruct (body w) as [[a | e] w1]; cbn [snd] in *.
  - exists t1. exact H1.
  - destruct (Hk e w1) as [t2 H2]. exists (t1 ++ t2).
    rewrite H2, H1. symmetry. apply app_assoc.
Qed.

Create HintDb appends.
#[local] Hint Resolve appends_ret appends_raise appends_record
  appends_get_cursor appends_set_cursor : appends.

Ltac appends :=
  repeat first
    [ solve [ auto with appends ]
    | apply appends_bind; [| intros ]
    | apply appends_try; [| intros ]
    | match goal with
      | |- appends (match ?x with _ => _ end) => destruct x
      end ].

Lemma appends_config_item {A} key (field : option A) :
  appends (config_item key field).
Proof. unfold config_item. appends. Qed.

Lemma appends_logger_error msg : appends (logger_error msg).
Proof. apply appends_record. Qed.

#[local] Hint Resolve appends_config_item appends_logger_error : appends.

Lemma appends_driver_call srv c e : appends (driver_call srv c e).
Proof. unfold driver_call. appends. Qed.

Lemma appends_connect srv args : appends (psycopg2_connect srv args).
Proof. unfold psycopg2_connect. appends. Qed.

Lemma appends_execute srv stmt : appends (cursor_execute srv stmt).
Proof. unfold cursor_execute. appends. Qed.

Lemma appends_fetch srv size n : appends (fetch srv size n).
Proof. unfold fetch. pose proof (appends_driver_call srv). appends. Qed.

#[local] Hint Resolve appends_driver_call appends_connect appends_execute
  appends_fetch : appends.

Lemma appends_get_connection config srv database :
  appends (get_connection config srv database).
Proof. unfold get_connection. appends. Qed.

Lemma appends_database_names rows : appends (database_names rows).
Proof. induction rows as [| row rows IH]; cbn [database_names]; appends. Qed.

#[local] Hint Resolve appends_get_connection appends_database_names : appends.


(* ================================================================== *)
(** * One step of a run *)

Lemma try_bind_step {A B} (c : M A) (k : A -> M B) h w a w1 :
  c w = (Return a, w1) ->
  try_except (bind c k) h w = try_except (k a) h w1.
Proof. unfold try_except, bind. intros ->. reflexivity. Qed.

Lemma try_bind_raise {A B} (c : M A) (k : A -> M B) h w e w1 :
  c w = (Raise e, w1) ->
  try_except (bind c k) h w = h e w1.
Proof. unfold try_except, bind. intros ->. reflexivity. Qed.

Lemma driver_call_run srv c e w :
  driver_call srv c e w
  = (match srv_fault srv c with Some x => Raise x | None => Return tt end,
     logged w [e]).
Proof. unfold driver_call. plumb. destruct (srv_fault srv c); reflexivity. Qed.

Lemma conn_cursor_run srv w :
  conn_cursor srv w
  = match srv_fault srv CallCursor with
    | Some x => (Raise x, logged w [EvCursor])
    | None => (Return tt, {| trace := trace w ++ [EvCursor]; cursor := new_cursor |})
    end.
Proof.
  unfold conn_cursor, bind. rewrite driver_call_run.
  destruct (srv_fault srv CallCursor); reflexivity.
Qed.

Lemma cursor_execute_run srv stmt w :
  cursor_execute srv stmt w
  = (match srv_run srv stmt with Raises x => Raise x | _ => Return tt end,
     {| trace := trace w ++ [EvExecute stmt];
        cursor := executed (srv_run srv stmt) (cursor w) |}).
Proof.
  unfold cursor_execute. plumb. destruct (srv_run srv stmt); reflexivity.
Qed.

(** [get_connection] with all the keys there: one call of [connect], with
    the configured timeout, and its outcome. *)
Lemma get_connection_run config srv database w :
  complete config ->
  exists args,
    a_database args = database
    /\ a_connect_timeout args = config_get (query_timeout config) 30
    /\ host config = Some (a_host args) /\ port config = Some (a_port args)
    /\ user config = Some (a_user args)
    /\ password config = Some (a_password args)
    /\ match srv_connect srv args with
       | None =>
           get_connection config srv database w
           = (Return tt, logged w [EvConnect args true])
       | Some e =>
           exists t,
             get_connection config srv database w
             = (Raise e, logged w (EvConnect args false :: t))
             /\ forall s, ~ In (EvExecute s) t
       end.
Proof.
  intros (Hh & Hp & Hu & Hpw). unfold get_connection, psycopg2_connect.
  destruct (host config) as [h |]; [| contradiction].
  destruct (port config) as [p |]; [| contradiction].
  destruct (user config) as [u |]; [| contradiction].
  destruct (password config) as [pw |]; [| contradiction].
  plumb.
  set (args := {| a_host := h; a_port := p; a_database := database;
                  a_user := u; a_password := pw;
                  a_connect_timeout := config_get (query_timeout config) 30 |}).
  exists args. repeat (split; [reflexivity |]).
  clearbody args.
  destruct (srv_connect srv args) as [e |]; [| reflexivity].
  destruct (is_psycopg2_error e).
  - eexists [_]. unfold logged. cbn [trace cursor]. rewrite <- app_assoc.
    split; [reflexivity |].
    intros s [H | []]. discriminate H.
  - exists []. split; [reflexivity | intros s []].
Qed.

(* ================================================================== *)
(** * Time-outs *)

Lemma gate_open up config query :
  passes_gate up config query = true ->
  config_get (read_only config) false && negb (is_read_only_query up query)
  = false.
Proof. unfold passes_gate. apply negb_true_iff. Qed.

Ltac step E :=
  first [ rewrite (try_bind_step _ _ _ _ _ _ E)
        | rewrite (try_bind_raise _ _ _ _ _ _ E) ];
  cbn beta zeta.

(** The remainder of a run, whatever it is, only appends to the trace. *)
Ltac remainder t Ht :=
  match goal with
  | |- context [trace (snd (?c ?w))] =>
      let H := fresh in
      assert (H : appends c);
      [ unfold conn_cursor, cursor_fetchmany, cursor_close, conn_close,
          conn_commit; appends
      | destruct (H w) as [t Ht]; clear H; rewrite Ht; cbn [trace logged] ]
  end.

(** The first statement executed in a trace that starts this way. *)
Lemma first_execute a b stmt rest pre s post :
  a :: b :: EvExecute stmt :: rest = pre ++ EvExecute s :: post ->
  (forall x, a <> EvExecute x) -> (forall x, b <> EvExecute x) ->
  (forall x, ~ In (EvExecute x) pre) -> s = stmt.
Proof.
  intros H Ha Hb Hpre.
  destruct pre as [| p1 [| p2 [| p3 pre]]]; cbn in H; inversion H; subst.
  - exfalso. eapply Ha. reflexivity.
  - exfalso. eapply Hb. reflexivity.
  - reflexivity.
  - exfalso. eapply Hpre. right. right. left. reflexivity.
Qed.

Lemma no_execute pre s post (t : list Event) :
  t = pre ++ EvExecute s :: post -> (forall x, ~ In (EvExecute x) t) -> False.
Proof. intros -> H. apply (H s). apply in_elt. Qed.

(** C8.  A call that passes the policy gate, with the required keys
    configured, calls [connect] first, with [query_timeout] (30 when it is
    absent) as its connect timeout.  If the connection and its cursor are
    obtained, the next thing the call does is execute
    [SET statement_timeout] with that value times 1000, and if that does
    not fail the caller's query follows at once.  Whatever the server
    does, the first statement a call executes is this [SET]. *)
Theorem timeout_set_before_query up config srv database query :
  passes_gate up config query = true ->
  complete config ->
  let qt := config_get (query_timeout config) 30 in
  let t := trace (snd (execute_sql up config srv database query init)) in
  exists args opened rest,
    t = EvConnect args opened :: rest
    /\ a_database args = database
    /\ a_connect_timeout args = qt
    /\ (opened = true -> srv_fault srv CallCursor = None ->
        exists rest',
          rest = EvCursor :: EvExecute (set_timeout (qt * 1000)) :: rest'
          /\ (executes srv (set_timeout (qt * 1000)) ->
              exists rest'', rest' = EvExecute query :: rest''))
    /\ (forall pre stmt post,
          t = pre ++ EvExecute stmt :: post ->
          (forall s, ~ In (EvExecute s) pre) ->
          stmt = set_timeout (qt * 1000)).
Proof.
  intros Hgate Hcomplete qt t. subst t. unfold execute_sql, execute_sql_try.
  rewrite (gate_open _ _ _ Hgate).
  destruct (get_connection_run config srv database init Hcomplete)
    as (args & Hdb & Hto & _ & _ & _ & _ & Hrun).
  fold qt in Hto |- *. fold (set_timeout (qt * 1000)).
  exists args.
  destruct (srv_connect srv args) as [e |].
  - destruct Hrun as (t1 & Hrun & Hno). step Hrun.
    remainder t2 Ht2.
    assert (Hno2 : forall s, ~ In (EvExecute s) t2).
    { revert Ht2. destruct (is_psycopg2_error e); plumb; cbn [logged];
      intros Ht2 s Hin; apply app_inv_head in Ht2; subst t2;
      destruct Hin as [Hin | []]; discriminate Hin. }
    exists false, (t1 ++ t2). rewrite <- app_assoc. cbn [app].
    repeat split; try assumption.
    + discriminate.
    + intros pre stmt post H Hpre. exfalso. eapply no_execute; [exact H |].
      intros x [Hx | Hx]; [discriminate Hx |].
      apply in_app_or in Hx as [Hx | Hx]; [eapply Hno | eapply Hno2]; eauto.
  - step Hrun. pose proof (conn_cursor_run srv (logged init [EvConnect args true])) as Hcur.
    destruct (srv_fault srv CallCursor) as [e |].
    + step Hcur. remainder t2 Ht2.
      assert (Hno2 : forall s, ~ In (EvExecute s) t2).
      { revert Ht2. destruct (is_psycopg2_error e); plumb; cbn [logged];
        intros Ht2 s Hin; apply app_inv_head in Ht2; subst t2;
        destruct Hin as [Hin | []]; discriminate Hin. }
      exists true, (EvCursor :: t2). cbn [app].
      repeat split; try assumption.
      * intros _ H. discriminate H.
      * intros pre stmt post H Hpre. exfalso. eapply no_execute; [exact H |].
        intros x [Hx | [Hx | Hx]]; [discriminate Hx | discriminate Hx |].
        eapply Hno2; eauto.
    + step Hcur.
      match goal with
      | |- context [try_except (bind (cursor_execute srv ?s) _) _ ?w] =>
          pose proof (cursor_execute_run srv s w) as Hset
      end.
      assert (Hfirst : forall rest' pre stmt post,
                 EvConnect args true :: EvCursor
                 :: EvExecute (set_timeout (qt * 1000)) :: rest'
                 = pre ++ EvExecute stmt :: post ->
                 (forall s, ~ In (EvExecute s) pre) ->
                 stmt = set_timeout (qt * 1000)).
      { intros rest' pre stmt post H Hpre.
        eapply first_execute; [exact H | | | exact Hpre]; discriminate. }
      destruct (srv_run srv (set_timeout (qt * 1000))) as [e | cols tuples | n] eqn:Es.
      * step Hset. remainder t2 Ht2.
        exists true, (EvCursor :: EvExecute (set_timeout (qt * 1000)) :: t2).
        repeat split; try assumption; [| apply Hfirst].
        intros _ _. eexists. split; [reflexivity |].
        intro Hex. exfalso. exact (Hex e Es).
      * step Hset.
        match goal with
        | |- context [try_except (bind (cursor_execute srv query) _) _ ?w] =>
            pose proof (cursor_execute_run srv query w) as Hq
        end.
        destruct (srv_run srv query); step Hq; remainder t2 Ht2;
          exists true,
            (EvCursor :: EvExecute (set_timeout (qt * 1000))
               :: EvExecute query :: t2);
          (repeat split; try assumption; [| apply Hfirst]);
          intros _ _; eexists; (split; [reflexivity |]);
          intros _; eexists; reflexivity.
      * step Hset.
        match goal with
        | |- context [try_except (bind (cursor_execute srv query) _) _ ?w] =>
            pose proof (cursor_execute_run srv query w) as Hq
        end.
        destruct (srv_run srv query); step Hq; remainder t2 Ht2;
          exists true,
            (EvCursor :: EvExecute (set_timeout (qt * 1000))
               :: EvExecute query :: t2);
          (repeat split; try assumption; [| apply Hfirst]);
          intros _ _; eexists; (split; [reflexivity |]);
          intros _; eexists; reflexivity.
Qed.

(* ================================================================== *)
(** * The read-only gate *)

Lemma startswith_spec p s : startswith p s = true <-> starts_with p s.
Proof.
  revert s. induction p as [| x p IH]; intros [| y s]; cbn [startswith].
  - split; [exists []; reflexivity | reflexivity].
  - split; [exists (y :: s); reflexivity | reflexivity].
  - split; [discriminate | intros [rest H]; discriminate H].
  - rewrite andb_true_iff, N.eqb_eq, IH. split.
    + intros [-> [rest ->]]. exists rest. reflexivity.
    + intros [rest H]. injection H as -> ->. split; [reflexivity | exists rest; reflexivity].
Qed.

Lemma startswith_any_false ps s :
  startswith_any ps s = false <-> forall p, In p ps -> ~ starts_with p s.
Proof.
  unfold startswith_any. split.
  - intros H p Hin Hp. apply startswith_spec in Hp.
    assert (existsb (fun p => startswith p s) ps = true) as E
      by (apply existsb_exists; eauto).
    congruence.
  - intro H. destruct (existsb _ ps) eqn:E; [| reflexivity].
    apply existsb_exists in E as (p & Hin & Hp).
    apply startswith_spec in Hp. destruct (H p Hin Hp).
Qed.

(** C2.  With [read_only] enabled, a query whose stripped, upper-cased
    text starts with none of SELECT, SHOW, DESCRIBE, EXPLAIN, WITH gets
    the read-only error response with empty rows and columns and row
    count 0, and the call leaves the state as it found it: nothing is
    recorded, so [connect] was not called. *)
Theorem read_only_rejects up config srv database query w :
  read_only config = Some true ->
  (forall k, In k safe_starts -> ~ starts_with k (upper up (strip query))) ->
  execute_sql up config srv database query w
  = (Return {| status := lit "error";
               message := lit "Server is in read-only mode. Only SELECT queries are allowed.";
               rows := []; row_count := 0; columns := [] |}, w)
  /\ connect_calls (trace (snd (execute_sql up config srv database query init))) = 0%nat.
Proof.
  intros Hro Hq. apply startswith_any_false in Hq.
  assert (execute_sql up config srv database query
          = ret (error_response (lit "Server is in read-only mode. Only SELECT queries are allowed."))) as E.
  { unfold execute_sql, execute_sql_try, is_read_only_query. rewrite Hro, Hq. reflexivity. }
  rewrite E. split; reflexivity.
Qed.

Lemma word_char_not_space c : word_char c = true -> is_space c = false.
Proof.
  unfold word_char, is_space. intro H.
  repeat rewrite ?orb_true_iff, ?andb_true_iff, ?N.leb_le, ?N.eqb_eq in H.
  repeat rewrite ?orb_false_iff, ?andb_false_iff, ?N.leb_gt, ?N.eqb_neq.
  lia.
Qed.

Lemma word_char_upper up c : word_char c = true -> upper_char up c = [c].
Proof.
  unfold word_char, upper_char. intro H.
  repeat rewrite ?orb_true_iff, ?andb_true_iff, ?N.leb_le, ?N.eqb_eq in H.
  assert ((c <? 128)%N = true) as -> by (apply N.ltb_lt; lia).
  assert (((97 <=? c) && (c <=? 122))%N = false) as ->
    by (rewrite andb_false_iff, !N.leb_gt; lia).
  reflexivity.
Qed.

Lemma lstrip_keeps u c v :
  is_space c = false -> exists u', lstrip (u ++ c :: v) = u' ++ c :: v.
Proof.
  intro Hc. induction u as [| x u IH]; cbn [app lstrip].
  - rewrite Hc. exists []. reflexivity.
  - destruct (is_space x); [exact IH | exists (x :: u); reflexivity].
Qed.

Lemma startswith_app p s : startswith p (p ++ s) = true.
Proof. apply startswith_spec. exists s. reflexivity. Qed.

(** A keyword followed by a word character survives [strip] and [upper]. *)
Lemma keyword_extended up k c rest :
  In k safe_starts -> word_char c = true ->
  exists tail, upper up (strip (k ++ c :: rest)) = k ++ c :: tail.
Proof.
  intros Hk Hc. unfold strip, rstrip.
  assert (lstrip (k ++ c :: rest) = k ++ c :: rest) as ->.
  { cbn in Hk. decompose [or] Hk; try contradiction; subst k; reflexivity. }
  rewrite rev_app_distr. cbn [rev]. rewrite <- app_assoc. cbn [app].
  destruct (lstrip_keeps (rev rest) c (rev k) (word_char_not_space c Hc))
    as [u' ->].
  rewrite rev_app_distr. cbn [rev]. rewrite rev_involutive, <- app_assoc.
  cbn [app]. exists (upper up (rev u')).
  unfold upper. rewrite flat_map_app. cbn [flat_map].
  rewrite (word_char_upper up c Hc). cbn [app]. f_equal.
  cbn in Hk. decompose [or] Hk; try contradiction; subst k; reflexivity.
Qed.

(** C9.  The classifier compares prefixes, not words.  A query made of an
    allowed keyword followed at once by a word character (SHOWING, SELECTX)
    still has the keyword as the prefix of its stripped, upper-cased text,
    [is_read_only_query] answers true for it, and in read-only mode
    [execute_sql] goes on to call [connect]; where the server accepts,
    the connection is opened. *)
Theorem keyword_prefix_passes_gate up config srv database k c rest :
  In k safe_starts ->
  word_char c = true ->
  read_only config = Some true ->
  complete config ->
  let query := k ++ c :: rest in
  (exists tail, upper up (strip query) = k ++ c :: tail)
  /\ is_read_only_query up query = true
  /\ exists args opened events,
       trace (snd (execute_sql up config srv database query init))
       = EvConnect args opened :: events
       /\ a_database args = database
       /\ (accepts srv database -> opened = true).
Proof.
  intros Hk Hc Hro Hcomplete query.
  destruct (keyword_extended up k c rest Hk Hc) as [tail Htail].
  assert (Hq : is_read_only_query up query = true).
  { unfold is_read_only_query, startswith_any. apply existsb_exists.
    exists k. split; [exact Hk |]. fold query in Htail. rewrite Htail.
    apply startswith_app. }
  split; [exists tail; exact Htail |]. split; [exact Hq |].
  unfold execute_sql, execute_sql_try. rewrite Hq, andb_false_r.
  destruct (get_connection_run config srv database init Hcomplete)
    as (args & Hdb & _ & _ & _ & _ & _ & Hrun).
  exists args.
  destruct (srv_connect srv args) as [e |] eqn:Ec.
  - destruct Hrun as (t1 & Hrun & _). step Hrun. remainder t2 Ht2.
    exists false, (t1 ++ t2). rewrite <- app_assoc.
    repeat split; try assumption.
    intro Hacc. rewrite (Hacc args Hdb) in Ec. discriminate Ec.
  - step Hrun. remainder t2 Ht2. exists true, t2. repeat split; assumption.
Qed.

(* ================================================================== *)
(** * Calls that reach the caller's query *)

(** With the connection accepted, the cursor created and the time-out
    set, a call executes the caller's query and goes on, or to its
    handlers, from there. *)
Lemma reach_query config srv database query (K : M Response) h :
  complete config -> accepts srv database ->
  srv_fault srv CallCursor = None ->
  let ms := config_get (query_timeout config) 30 * 1000 in
  executes srv (set_timeout ms) ->
  exists args c0,
    a_database args = database
    /\ try_except
         (get_connection config srv database ;;
          conn_cursor srv ;;
          cursor_execute srv (set_timeout ms) ;;
          cursor_execute srv query ;;
          K) h init
       = match srv_run srv query with
         | Raises e => h e (classifying args ms query c0)
         | o => try_except K h (classifying args ms query (executed o c0))
         end.
Proof.
  intros Hcomplete Hacc Hcur ms Hset.
  destruct (get_connection_run config srv database init Hcomplete)
    as (args & Hdb & _ & _ & _ & _ & _ & Hrun).
  rewrite (Hacc args Hdb) in Hrun. step Hrun.
  pose proof (conn_cursor_run srv (logged init [EvConnect args true])) as E.
  rewrite Hcur in E. step E. clear E.
  match goal with
  | |- context [try_except (bind (cursor_execute srv ?s) _) _ ?w] =>
      pose proof (cursor_execute_run srv s w) as E
  end.
  exists args, (executed (srv_run srv (set_timeout ms)) new_cursor).
  split; [exact Hdb |].
  destruct (srv_run srv (set_timeout ms)) as [e | cols tuples | n] eqn:Es;
    [destruct (Hset e Es) | |]; step E; clear E;
    match goal with
    | |- context [try_except (bind (cursor_execute srv query) _) _ ?w] =>
        pose proof (cursor_execute_run srv query w) as E
    end;
    destruct (srv_run srv query); step E; reflexivity.
Qed.

(** Brings a run of [execute_sql] that passes the gate to the point where
    the outcome of the caller's query is known. *)
Ltac to_query Hgate Hcomplete Hacc Hcur Hset args c0 Hdb E :=
  unfold execute_sql, execute_sql_try; rewrite (gate_open _ _ _ Hgate); cbv zeta;
  match goal with
  | |- context [try_except
                  (bind _ (fun _ => bind _ (fun _ => bind _ (fun _ =>
                     bind (cursor_execute ?srv ?query) (fun _ => ?K)))))
                  ?h init] =>
      destruct (reach_query _ srv _ query K h Hcomplete Hacc Hcur Hset)
        as (args & c0 & Hdb & E)
  end.

Lemma fits_long_range z : LONG_MIN <= z <= LONG_MAX -> fits_long z = true.
Proof.
  intros [Hlo Hhi]. unfold fits_long.
  apply andb_true_iff. split; apply Z.leb_le; assumption.
Qed.

Lemma firstn_capped {A} (l : list A) (size : Z) :
  0 <= size ->
  firstn (if (size >? Z.of_nat (List.length l)) || (size <? 0)
          then List.length l else Z.to_nat size) l
  = firstn (Z.to_nat size) l.
Proof.
  intro H. destruct (size >? Z.of_nat (List.length l)) eqn:E1; cbn [orb].
  - rewrite firstn_all. symmetry. apply firstn_all2. lia.
  - assert ((size <? 0) = false) as -> by (apply Z.ltb_ge; exact H).
    reflexivity.
Qed.

Section Reached.

Context (up : N -> str) (config : Config) (srv : Server).
Context (database query : str).

(** The call passes the gate, finds its keys, is given a connection,
    meets no failing driver call, and has its time-out accepted. *)
Hypothesis Hgate : passes_gate up config query = true.
Hypothesis Hcomplete : complete config.
Hypothesis Hacc : accepts srv database.
Hypothesis Hsound : sound srv.
Hypothesis Hset :
  executes srv (set_timeout (config_get (query_timeout config) 30 * 1000)).




Lemma tuples_run cols tuples :
  srv_run srv query = Tuples cols tuples ->
  cols <> [] ->
  LONG_MIN <= config_get (max_rows config) 1000 <= LONG_MAX ->
  let max := config_get (max_rows config) 1000 in
  let total := Z.of_nat (List.length tuples) in
  let n := if (max >? total) || (max <? 0)
           then List.length tuples else Z.to_nat max in
  let results :=
    map dict_of (map (real_dict_row cols) (firstn n tuples)) in
  let returned := Z.of_nat (List.length results) in
  let base := lit "Query executed successfully. Returned "
              ++ str_of_Z returned ++ lit " rows." in
  exists w',
    execute_sql up config srv database query init
    = (Return {| status := lit "success";
                 message := if total >? max
                            then base ++ lit " (Limited to " ++ str_of_Z max
                                 ++ lit " rows)"
                            else base;
                 rows := results;
                 row_count := returned;
                 columns := map col_name cols |}, w')
    /\ closes (trace w') = 1%nat.
Proof.
  intros Hq Hcols Hlong max total n results returned base.
  to_query Hgate Hcomplete Hacc (Hsound CallCursor) Hset args c0 Hdb E.
  eexists. split.
  - etransitivity; [exact E |]. clear E. rewrite Hq. cbn [executed].
    destruct cols as [| col cols']; [contradiction |].
    unfold cursor_fetchmany. rewrite (fits_long_range _ Hlong).
    unfold fetch, cursor_close, conn_close, driver_call,
      classifying, described.
    plumb. cbn [truthy]. rewrite !Hsound. reflexivity.
  - reflexivity.
Qed.


End Reached.

(* ================================================================== *)
(** * Listing the databases *)

Lemma str_leb_total a b : str_leb a b = false -> str_leb b a = true.
Proof.
  revert b. induction a as [| x a IH]; intros [| y b]; cbn [str_leb];
    try discriminate; try reflexivity.
  intro H. apply orb_false_iff in H as [Hlt H].
  apply N.ltb_ge in Hlt.
  destruct (N.eqb_spec x y) as [-> | Hne]; cbn [andb] in H.
  - rewrite N.eqb_refl, (IH b H). apply orb_true_r.
  - assert ((y <? x)%N = true) as -> by (apply N.ltb_lt; lia). reflexivity.
Qed.

Lemma insert_name_perm n l : Permutation (n :: l) (insert_name n l).
Proof.
  induction l as [| m l IH]; cbn [insert_name]; [reflexivity |].
  destruct (str_leb n m); [reflexivity |].
  rewrite perm_swap. apply perm_skip. exact IH.
Qed.

Lemma insert_name_sorted n l : Sorted str_le l -> Sorted str_le (insert_name n l).
Proof.
  induction 1 as [| m l Hl IH Hhd]; cbn [insert_name].
  - repeat constructor.
  - destruct (str_leb n m) eqn:E.
    + constructor; [constructor; assumption | constructor; exact E].
    + constructor; [exact IH |].
      apply str_leb_total in E.
      destruct Hhd as [| k l Hk]; cbn [insert_name].
      * constructor. exact E.
      * destruct (str_leb n k); constructor; assumption.
Qed.

Lemma order_by_name_sorted l : Sorted str_le (order_by_name l).
Proof.
  induction l as [| n l IH]; cbn; [constructor | apply insert_name_sorted, IH].
Qed.

Lemma order_by_name_perm l : Permutation (order_by_name l) l.
Proof.
  induction l as [| n l IH]; cbn; [reflexivity |].
  rewrite <- insert_name_perm. apply perm_skip. exact IH.
Qed.

Lemma str_eqb_refl s : str_eqb s s = true.
Proof.
  induction s as [| x s IH]; cbn [str_eqb]; [reflexivity |].
  rewrite N.eqb_refl. exact IH.
Qed.

Lemma database_names_of_rows names w :
  database_names
    (map (fun n => [(lit "database_name", VStr n)]) names) w
  = (Return (map VStr names), w).
Proof.
  induction names as [| n names IH]; cbn [map database_names]; [reflexivity |].
  cbn [dict_get]. rewrite str_eqb_refl. unfold bind. rewrite IH. reflexivity.
Qed.

Lemma fetchall_returns srv w fetched w' :
  cursor_fetchall srv w = (Return fetched, w') ->
  exists tuples,
    results (cursor w) = Some tuples
    /\ fetched = map (real_dict_row (described (cursor w))) tuples.
Proof.
  unfold cursor_fetchall, fetch, bind. rewrite driver_call_run.
  destruct (srv_fault srv CallFetch); [discriminate |].
  plumb. cbn [logged cursor]. destruct (results (cursor w)) as [tuples |];
    [| discriminate].
  rewrite firstn_all. intro H. inversion H. exists tuples. split; reflexivity.
Qed.

Lemma try_returns {A} (c : M A) h w a w1 :
  c w = (Return a, w1) -> try_except c h w = (Return a, w1).
Proof. unfold try_except. intros ->. reflexivity. Qed.

(** The run of [list_databases] when nothing fails. *)
Lemma list_databases_run config srv pg_database :
  complete config -> accepts srv (lit "postgres") -> sound srv ->
  srv_run srv list_databases_query = select_databases pg_database ->
  let names := order_by_name (plain_databases pg_database) in
  exists args,
    list_databases config srv init
    = (Return {| l_status := lit "success";
                 l_databases := map VStr names;
                 l_count := Some (Z.of_nat (List.length names));
                 l_message := None |},
       {| trace := [EvConnect args true; EvCursor;
                    EvExecute list_databases_query; EvFetch None;
                    EvCursorClose; EvClose];
          cursor := {| description := Some [{| col_name := lit "database_name";
                                               type_code := 19 |}];
                       rowcount := Z.of_nat (List.length names);
                       results := Some [] |} |}).
Proof.
  intros Hcomplete Hacc Hsound Hq names. unfold list_databases, list_databases_try.
  destruct (get_connection_run config srv (lit "postgres") init Hcomplete)
    as (args & Hdb & _ & _ & _ & _ & _ & Hrun).
  rewrite (Hacc args Hdb) in Hrun. step Hrun. exists args.
  pose proof (conn_cursor_run srv (logged init [EvConnect args true])) as E.
  rewrite (Hsound CallCursor) in E. step E. clear E.
  match goal with
  | |- context [try_except (bind (cursor_execute srv ?s) _) _ ?w] =>
      pose proof (cursor_execute_run srv s w) as E
  end.
  rewrite Hq in E. unfold select_databases in E. step E. clear E.
  fold (plain_databases pg_database). fold names.
  apply try_returns.
  unfold cursor_fetchall, fetch, cursor_close, conn_close, driver_call, bind at 1 2 3 4 5 6 7 8.
  plumb. rewrite !Hsound. unfold described.
  cbn [executed results description rowcount logged trace cursor init app].
  rewrite firstn_all, skipn_all, map_map, !length_map.
  change (map (fun x : str => real_dict_row _ [VStr x]) names)
    with (map (fun n => [(lit "database_name", VStr n)]) names).
  rewrite database_names_of_rows, ?length_map. reflexivity.
Qed.

(** The text of the query in [list_databases] asks for the names that
    are not of templates, in order. *)
Lemma source_query_selects pg_database :
  catalog_answer pg_database list_databases_query
  = select_databases pg_database.
Proof. reflexivity. Qed.

(** C7.  The server reads the statement it is sent: where it answers the
    query of [list_databases] with a result set, that is the result set
    the text of the query selects from its catalog.  Then
    [list_databases] returns one of two shapes.  On success: the names
    of the databases that are not templates, each once per catalog row,
    in ascending lexical order, and their number as [count].  Otherwise,
    that is whenever something raised: status error, a message, and an
    empty [databases].  With the keys configured, the connection
    accepted, no driver call failing and the server answering the query
    from its catalog, it is the first. *)
Theorem databases_listed config srv pg_database :
  (forall cols tuples,
      srv_run srv list_databases_query = Tuples cols tuples ->
      catalog_answer pg_database list_databases_query = Tuples cols tuples) ->
  exists l w',
    list_databases config srv init = (Return l, w')
    /\ ((l_status l = lit "success"
         /\ exists names,
             l_databases l = map VStr names
             /\ Sorted str_le names
             /\ Permutation names (plain_databases pg_database)
             /\ Forall (fun n => exists d, In d pg_database
                                   /\ datname d = n
                                   /\ datistemplate d = false) names
             /\ l_count l = Some (Z.of_nat (List.length names))
             /\ l_message l = None)
        \/ (l_status l = lit "error"
            /\ l_databases l = []
            /\ l_count l = None
            /\ exists m, l_message l = Some m))
    /\ (complete config -> accepts srv (lit "postgres") -> sound srv ->
        srv_run srv list_databases_query
        = catalog_answer pg_database list_databases_query ->
        l_status l = lit "success").
Proof.
  intro Hsrv.
  assert (Hshape : exists l w',
    list_databases config srv init = (Return l, w')
    /\ ((l_status l = lit "success"
         /\ exists names,
             l_databases l = map VStr names
             /\ Sorted str_le names
             /\ Permutation names (plain_databases pg_database)
             /\ Forall (fun n => exists d, In d pg_database
                                   /\ datname d = n
                                   /\ datistemplate d = false) names
             /\ l_count l = Some (Z.of_nat (List.length names))
             /\ l_message l = None)
        \/ (l_status l = lit "error"
            /\ l_databases l = []
            /\ l_count l = None
            /\ exists m, l_message l = Some m))).
  { unfold list_databases, list_databases_try.
    match goal with
    | |- context [try_except ?b ?h init] =>
        unfold try_except at 1; destruct (b init) as [[l | e] w'] eqn:E
    end.
    - exists l, w'. split; [reflexivity |]. left.
      apply bind_returns in E as ([] & w1 & E1 & E).
      apply bind_returns in E as ([] & w2 & E2 & E).
      apply bind_returns in E as ([] & w3 & E3 & E).
      apply bind_returns in E as (fetched & w4 & E4 & E).
      apply bind_returns in E as ([] & w5 & E5 & E).
      apply bind_returns in E as ([] & w6 & E6 & E).
      apply bind_returns in E as (databases & w7 & E7 & E).
      inversion E; subst l w7; clear E.
      cbn [l_status l_databases l_count l_message].
      rewrite cursor_execute_run in E3.
      apply fetchall_returns in E4 as (tuples & Hres & ->).
      destruct (srv_run srv list_databases_query)
        as [e | cols tuples' | n] eqn:Eq;
        inversion E3 as [Hw]; subst w3; clear E3;
        unfold described in E7; cbn [cursor executed results description] in *;
        [| discriminate Hres].
      injection Hres as ->.
      specialize (Hsrv cols tuples eq_refl).
      rewrite source_query_selects in Hsrv. unfold select_databases in Hsrv.
      injection Hsrv as <- <-.
      rewrite map_map in E7.
      pose proof (eq_trans (eq_sym E7)
                    (database_names_of_rows
                       (order_by_name (plain_databases pg_database)) w6)) as H.
      injection H as -> _.
      split; [reflexivity |].
      exists (order_by_name (plain_databases pg_database)).
      repeat split.
      + apply order_by_name_sorted.
      + apply order_by_name_perm.
      + apply Forall_forall. intros n Hn.
        apply (Permutation_in _ (order_by_name_perm _)) in Hn.
        unfold plain_databases in Hn.
        apply in_map_iff in Hn as (d & Hd & Hin).
        apply filter_In in Hin as (Hin & Ht).
        exists d. repeat split; try assumption.
        apply negb_true_iff. exact Ht.
      + rewrite length_map. reflexivity.
    - plumb. eexists _, _. split; [reflexivity |]. right.
      cbn [l_status l_databases l_count l_message].
      repeat split. eexists. reflexivity. }
  destruct Hshape as (l & w' & E & Hshape). exists l, w'.
  split; [exact E |]. split; [exact Hshape |].
  intros Hcomplete Hacc Hsound Hq.
  rewrite source_query_selects in Hq.
  destruct (list_databases_run config srv pg_database
              Hcomplete Hacc Hsound Hq) as (args & E').
  rewrite E in E'. injection E' as -> _. reflexivity.
Qed.

(* ================================================================== *)
(** * Connections that stay open *)

(** A call whose query the server rejects returns the database error
    with its connection acquired and never closed. *)
Lemma failed_query_leaks up config srv database query e :
  passes_gate up config query = true ->
  complete config -> accepts srv database ->
  srv_fault srv CallCursor = None ->
  executes srv (set_timeout (config_get (query_timeout config) 30 * 1000)) ->
  srv_run srv query = Raises e ->
  exists r w',
    execute_sql up config srv database query init = (Return r, w')
    /\ status r = lit "error"
    /\ acquisitions (trace w') = 1%nat
    /\ closes (trace w') = 0%nat.
Proof.
  intros Hgate Hcomplete Hacc Hcur Hset Hq.
  to_query Hgate Hcomplete Hacc Hcur Hset args c0 Hdb E.
  rewrite Hq in E.
  destruct e;
    eexists _, _; (split; [etransitivity; [exact E |]; reflexivity |]);
    repeat split.
Qed.

(** C1.  [execute_sql('db', 'SELEC 1')] on a writable configuration and
    [list_databases()] against a server that denies the catalog both
    acquire a connection, return an error response, and never call
    [close]. *)
Theorem connection_left_open :
  (exists r w',
      execute_sql Double.plain_upper Double.writable Double.server
        (lit "db") (lit "SELEC 1") init = (Return r, w')
      /\ status r = lit "error"
      /\ message r = lit "Database error: syntax error"
      /\ acquisitions (trace w') = 1%nat
      /\ closes (trace w') = 0%nat)
  /\ (exists l w',
      list_databases Double.writable Double.locked init = (Return l, w')
      /\ l_status l = lit "error"
      /\ acquisitions (trace w') = 1%nat
      /\ closes (trace w') = 0%nat).
Proof.
  split; eexists _, _; (split; [vm_compute; reflexivity |]); repeat split.
Qed.

(* ================================================================== *)
(** * Start-up *)

Lemma first_absent_incomplete config key :
  first_absent config = Some key -> ~ complete config.
Proof.
  unfold first_absent, complete.
  destruct (host config), (port config), (user config), (password config);
    intros H (H1 & H2 & H3 & H4); congruence.
Qed.

Lemma get_connection_absent config srv database w key :
  first_absent config = Some key ->
  get_connection config srv database w = (Raise (KeyError key), w).
Proof.
  unfold first_absent, get_connection.
  destruct (host config), (port config), (user config), (password config);
    intro H; inversion H; subst; plumb; destruct w; reflexivity.
Qed.



(* ================================================================== *)
(** * The properties on the test doubles *)

(** C2 on the scenario [execute_sql('sales', 'DELETE FROM orders')] in
    read-only mode. *)
Lemma read_only_rejects_witness :
  execute_sql Double.plain_upper Double.readonly Double.server
    (lit "sales") (lit "DELETE FROM orders") init
  = (Return (error_response
               (lit "Server is in read-only mode. Only SELECT queries are allowed.")),
     init).
Proof.
  apply (read_only_rejects Double.plain_upper Double.readonly Double.server
           (lit "sales") (lit "DELETE FROM orders") init).
  - reflexivity.
  - intros k Hin [rest H]. cbn in Hin.
    decompose [or] Hin; try contradiction; subst k;
      vm_compute in H; discriminate H.
Defined.







(** C7 on a catalog of three databases and two templates. *)
Lemma databases_listed_witness :
  exists l w',
    list_databases Double.writable Double.server init = (Return l, w')
    /\ l_status l = lit "success"
    /\ l_databases l
       = [VStr (lit "hr"); VStr (lit "postgres"); VStr (lit "sales")]
    /\ l_count l = Some 3.
Proof.
  destruct (databases_listed Double.writable Double.server Double.pg_database)
    as (l & w' & E & _ & Hsuccess).
  - intros cols tuples H. rewrite <- H. reflexivity.
  - exists l, w'. split; [exact E |]. split.
    + apply Hsuccess.
      * repeat split; discriminate.
      * intros args _. reflexivity.
      * intro c. reflexivity.
      * reflexivity.
    + vm_compute in E. injection E as <- _. split; reflexivity.
Defined.

(** C8 on a configuration with a time-out of 5 seconds. *)
Lemma timeout_set_before_query_witness :
  exists args opened rest,
    trace (snd (execute_sql Double.plain_upper Double.readonly Double.server
                  (lit "db") (lit "SELECT id FROM t ORDER BY id") init))
    = EvConnect args opened :: rest
    /\ a_connect_timeout args = 5.
Proof.
  destruct (timeout_set_before_query Double.plain_upper Double.readonly
              Double.server (lit "db") (lit "SELECT id FROM t ORDER BY id"))
    as (args & opened & rest & E & _ & Hto & _).
  - reflexivity.
  - repeat split; discriminate.
  - exists args, opened, rest. split; [exact E | exact Hto].
Defined.

(** C9 on the query [SHOWING tables]. *)
Lemma keyword_prefix_passes_gate_witness :
  is_read_only_query Double.plain_upper (lit "SHOWING tables") = true
  /\ exists args events,
      trace (snd (execute_sql Double.plain_upper Double.readonly Double.server
                    (lit "db") (lit "SHOWING tables") init))
      = EvConnect args true :: events.
Proof.
  destruct (keyword_prefix_passes_gate Double.plain_upper Double.readonly
              Double.server (lit "db") (lit "SHOW") 73%N (lit "NG tables"))
    as (_ & Hq & args & opened & events & E & _ & Hopen).
  - right. left. reflexivity.
  - reflexivity.
  - reflexivity.
  - repeat split; discriminate.
  - split; [exact Hq |]. exists args, events.
    rewrite (Hopen (fun _ _ => eq_refl)) in E. exact E.
Defined.

(* ================================================================== *)
(** * The classifier and the text of a query *)

Lemma blank_lstrip ws s : blank ws -> lstrip (ws ++ s) = lstrip s.
Proof.
  induction 1 as [| c ws Hc _ IH]; cbn [app lstrip]; [reflexivity |].
  rewrite Hc. exact IH.
Qed.

Lemma blank_rev ws : blank ws -> blank (rev ws).
Proof. unfold blank. apply Forall_rev. Qed.

Lemma lstrip_before_blank q ws :
  blank ws ->
  lstrip (q ++ ws) = lstrip q ++ ws
  \/ (lstrip q = [] /\ lstrip (q ++ ws) = []).
Proof.
  intro Hws. induction q as [| c q IH]; cbn [app lstrip].
  - right. split; [reflexivity |].
    rewrite <- (app_nil_r ws), (blank_lstrip ws [] Hws). reflexivity.
  - destruct (is_space c); [exact IH | left; reflexivity].
Qed.

Lemma strip_surrounded before query after :
  blank before -> blank after ->
  strip (before ++ query ++ after) = strip query.
Proof.
  intros Hb Ha. unfold strip. rewrite (blank_lstrip before _ Hb).
  destruct (lstrip_before_blank query after Ha) as [-> | [-> ->]];
    [| reflexivity].
  unfold rstrip. rewrite rev_app_distr.
  rewrite (blank_lstrip (rev after) _ (blank_rev after Ha)). reflexivity.
Qed.

(** X1.  White space before and after a query does not change how it
    is classified. *)
Theorem classifier_ignores_surrounding_space up before query after :
  blank before -> blank after ->
  is_read_only_query up (before ++ query ++ after)
  = is_read_only_query up query.
Proof.
  intros Hb Ha. unfold is_read_only_query.
  rewrite (strip_surrounded before query after Hb Ha). reflexivity.
Qed.

Lemma classifier_ignores_surrounding_space_witness :
  is_read_only_query Double.plain_upper
    ([10; 32; 9]%N ++ lit "select 1" ++ [32; 13; 10]%N)
  = is_read_only_query Double.plain_upper (lit "select 1").
Proof.
  apply classifier_ignores_surrounding_space;
    repeat constructor.
Defined.

Lemma capital_range c :
  ((65 <=? c) && (c <=? 90))%N = true -> (65 <= c <= 90)%N.
Proof. rewrite andb_true_iff, !N.leb_le. tauto. Qed.

Lemma is_space_ascii_lower c : is_space (ascii_lower c) = is_space c.
Proof.
  unfold ascii_lower. destruct ((65 <=? c) && (c <=? 90))%N eqn:E;
    [| reflexivity].
  apply capital_range in E.
  assert (forall d, (65 <= d <= 122)%N -> is_space d = false) as H.
  { intros d Hd. unfold is_space.
    repeat rewrite ?orb_false_iff, ?andb_false_iff, ?N.leb_gt, ?N.eqb_neq.
    lia. }
  rewrite !H by lia. reflexivity.
Qed.

Lemma upper_char_ascii_lower up c :
  upper_char up (ascii_lower c) = upper_char up c.
Proof.
  unfold ascii_lower. destruct ((65 <=? c) && (c <=? 90))%N eqn:E;
    [| reflexivity].
  apply capital_range in E. unfold upper_char.
  assert ((c + 32 <? 128)%N = true) as -> by (apply N.ltb_lt; lia).
  assert ((c <? 128)%N = true) as -> by (apply N.ltb_lt; lia).
  assert (((97 <=? c + 32) && (c + 32 <=? 122))%N = true) as ->
    by (rewrite andb_true_iff, !N.leb_le; lia).
  assert (((97 <=? c) && (c <=? 122))%N = false) as ->
    by (rewrite andb_false_iff, !N.leb_gt; lia).
  rewrite N.add_sub. reflexivity.
Qed.

Lemma lstrip_ascii_lower s :
  lstrip (map ascii_lower s) = map ascii_lower (lstrip s).
Proof.
  induction s as [| c s IH]; cbn [map lstrip]; [reflexivity |].
  rewrite is_space_ascii_lower. destruct (is_space c); [exact IH | reflexivity].
Qed.

Lemma strip_ascii_lower s :
  strip (map ascii_lower s) = map ascii_lower (strip s).
Proof.
  unfold strip, rstrip.
  rewrite lstrip_ascii_lower, <- map_rev, lstrip_ascii_lower, map_rev.
  reflexivity.
Qed.

Lemma upper_ascii_lower up s : upper up (map ascii_lower s) = upper up s.
Proof.
  unfold upper. induction s as [| c s IH]; cbn [map flat_map]; [reflexivity |].
  rewrite upper_char_ascii_lower, IH. reflexivity.
Qed.

(** X2.  The classifier does not tell the ASCII capitals from their
    lower case: a query and its lower-cased text are classified alike. *)
Theorem classifier_ignores_ascii_case up query :
  is_read_only_query up (map ascii_lower query) = is_read_only_query up query.
Proof.
  unfold is_read_only_query.
  rewrite strip_ascii_lower, upper_ascii_lower. reflexivity.
Qed.

Lemma strip_between a middle z tail :
  is_space a = false -> is_space z = false ->
  exists tail', strip (a :: middle ++ z :: tail) = a :: middle ++ z :: tail'.
Proof.
  intros Ha Hz. unfold strip. cbn [lstrip]. rewrite Ha. unfold rstrip.
  change (a :: middle ++ z :: tail) with ((a :: middle) ++ z :: tail).
  rewrite rev_app_distr. cbn [rev]. rewrite <- app_assoc. cbn [app].
  destruct (lstrip_keeps (rev tail) z (rev middle ++ [a]) Hz) as [u ->].
  exists (rev u). rewrite rev_app_distr. cbn [rev].
  rewrite rev_app_distr, rev_involutive. cbn [rev app].
  rewrite <- app_assoc. reflexivity.
Qed.

Lemma keyword_kept up k tail :
  In k safe_starts ->
  exists tail', upper up (strip (k ++ tail)) = k ++ tail'.
Proof.
  intro Hk.
  assert (exists a middle z,
             k = a :: middle ++ [z] /\ is_space a = false
             /\ is_space z = false /\ upper up k = k)
    as (a & middle & z & -> & Ha & Hz & Hup).
  { cbn in Hk. decompose [or] Hk; try contradiction; subst k.
    - exists 83%N, (lit "ELEC"), 84%N. repeat split.
    - exists 83%N, (lit "HO"), 87%N. repeat split.
    - exists 68%N, (lit "ESCRIB"), 69%N. repeat split.
    - exists 69%N, (lit "XPLAI"), 78%N. repeat split.
    - exists 87%N, (lit "IT"), 72%N. repeat split. }
  assert (Hsplit : forall t, (a :: middle ++ [z]) ++ t = a :: middle ++ z :: t).
  { intro t. cbn [app]. rewrite <- app_assoc. reflexivity. }
  rewrite Hsplit.
  destruct (strip_between a middle z tail Ha Hz) as [tail' ->].
  exists (upper up tail'). rewrite <- Hsplit.
  unfold upper in *. rewrite flat_map_app, Hup. reflexivity.
Qed.

(** X3.  Only the keyword counts: a query that begins with SELECT, SHOW,
    DESCRIBE, EXPLAIN or WITH is classified as read-only whatever text
    follows the keyword, a second statement included. *)
Theorem classifier_reads_keyword_only up k tail :
  In k safe_starts -> is_read_only_query up (k ++ tail) = true.
Proof.
  intro Hk. destruct (keyword_kept up k tail Hk) as [tail' H].
  unfold is_read_only_query, startswith_any. apply existsb_exists.
  exists k. split; [exact Hk |]. rewrite H. apply startswith_app.
Qed.

Lemma classifier_reads_keyword_only_witness :
  is_read_only_query Double.plain_upper
    (lit "SELECT" ++ lit " 1; DROP TABLE t") = true.
Proof.
  apply classifier_reads_keyword_only. left. reflexivity.
Defined.

Lemma blank_strip q : blank q -> strip q = [].
Proof.
  intro H. unfold strip.
  rewrite <- (app_nil_r q), (blank_lstrip q [] H). reflexivity.
Qed.

(** X4.  In read-only mode an empty query, or one of white space only,
    is refused like a write and nothing is recorded: no connection is
    made for it. *)
Theorem blank_query_refused up config srv database query w :
  read_only config = Some true ->
  blank query ->
  execute_sql up config srv database query w
  = (Return (error_response
               (lit "Server is in read-only mode. Only SELECT queries are allowed.")),
     w).
Proof.
  intros Hro Hq. unfold execute_sql, execute_sql_try, is_read_only_query.
  rewrite Hro, (blank_strip query Hq). reflexivity.
Qed.

Lemma blank_query_refused_witness :
  execute_sql Double.plain_upper Double.readonly Double.server
    (lit "db") [] init
  = (Return (error_response
               (lit "Server is in read-only mode. Only SELECT queries are allowed.")),
     init).
Proof.
  apply blank_query_refused; [reflexivity | constructor].
Defined.

Lemma strip_first_kept before c rest :
  blank before -> is_space c = false ->
  exists rest', strip (before ++ c :: rest) = c :: rest'.
Proof.
  intros Hb Hc. unfold strip. rewrite (blank_lstrip before _ Hb).
  cbn [lstrip]. rewrite Hc. unfold rstrip. cbn [rev].
  destruct (lstrip_keeps (rev rest) c [] Hc) as [u ->].
  exists (rev u). rewrite rev_app_distr. reflexivity.
Qed.

(** X22.  A query whose first character after the leading white space
    is an ASCII character other than D, E, S or W, in either case, is
    classified as not read-only: a parenthesis, a comment or a quote in
    front of a SELECT is enough. *)
Theorem classifier_refuses_other_first_character up before c rest :
  blank before ->
  (c < 128)%N ->
  is_space c = false ->
  ~ In c [68; 69; 83; 87; 100; 101; 115; 119]%N ->
  is_read_only_query up (before ++ c :: rest) = false.
Proof.
  intros Hb Hascii Hc Hother.
  destruct (strip_first_kept before c rest Hb Hc) as [rest' Hstrip].
  unfold is_read_only_query. rewrite Hstrip.
  unfold upper. cbn [flat_map]. unfold upper_char at 1.
  assert ((c <? 128)%N = true) as -> by (apply N.ltb_lt; exact Hascii).
  set (c' := if ((97 <=? c) && (c <=? 122))%N then (c - 32)%N else c).
  assert (c' <> 68 /\ c' <> 69 /\ c' <> 83 /\ c' <> 87)%N
    as (H68 & H69 & H83 & H87).
  { subst c'. cbn [In] in Hother.
    destruct ((97 <=? c) && (c <=? 122))%N eqn:E.
    - apply andb_true_iff in E as [E1 E2].
      apply N.leb_le in E1. apply N.leb_le in E2. lia.
    - lia. }
  apply N.eqb_neq in H68, H69, H83, H87.
  rewrite N.eqb_sym in H68, H69, H83, H87.
  change safe_starts
    with [83%N :: lit "ELECT"; 83%N :: lit "HOW"; 68%N :: lit "ESCRIBE";
          69%N :: lit "XPLAIN"; 87%N :: lit "ITH"].
  unfold startswith_any. cbn [app existsb startswith].
  rewrite H68, H69, H83, H87. reflexivity.
Qed.

Lemma classifier_refuses_other_first_character_witness :
  is_read_only_query Double.plain_upper
    ([32; 32]%N ++ 40%N :: lit "SELECT 1)") = false.
Proof.
  apply classifier_refuses_other_first_character.
  - repeat constructor.
  - reflexivity.
  - reflexivity.
  - cbn [In]. intros H. decompose [or] H; try discriminate; contradiction.
Defined.

(* ================================================================== *)
(** * Connections refused *)

Lemma connect_refused config srv database w :
  complete config ->
  exists args,
    configured config database args
    /\ (srv_connect srv args = None ->
        get_connection config srv database w
        = (Return tt, logged w [EvConnect args true]))
    /\ (forall e, srv_connect srv args = Some e ->
        get_connection config srv database w
        = (Raise e, logged w (EvConnect args false :: connection_log e))).
Proof.
  intros (Hh & Hp & Hu & Hpw).
  unfold get_connection, psycopg2_connect, configured.
  destruct (host config) as [h |]; [| contradiction].
  destruct (port config) as [p |]; [| contradiction].
  destruct (user config) as [u |]; [| contradiction].
  destruct (password config) as [pw |]; [| contradiction].
  plumb.
  set (args := {| a_host := h; a_port := p; a_database := database;
                  a_user := u; a_password := pw;
                  a_connect_timeout := config_get (query_timeout config) 30 |}).
  exists args. split; [repeat split |]. clearbody args.
  split.
  - intros ->. reflexivity.
  - intros e ->. unfold connection_log, logged.
    destruct (is_psycopg2_error e); cbn [trace cursor];
      rewrite <- ?app_assoc; reflexivity.
Qed.

(** X5.  When [connect] fails, [execute_sql] returns the error response
    built from the exception, having made that single call: no cursor,
    no statement, no close.  A driver error is logged twice, once by
    [get_connection] and once by [execute_sql]. *)
Theorem refused_connection_reported up config srv database query e :
  passes_gate up config query = true ->
  complete config ->
  (forall args, a_database args = database -> srv_connect srv args = Some e) ->
  exists args,
    configured config database args
    /\ execute_sql up config srv database query init
       = (Return (error_response (failure_message e)),
          {| trace := EvConnect args false
                      :: connection_log e ++ [EvLogError (failure_log e)];
             cursor := new_cursor |}).
Proof.
  intros Hgate Hcomplete Hrefuse. unfold execute_sql, execute_sql_try.
  rewrite (gate_open _ _ _ Hgate).
  destruct (connect_refused config srv database init Hcomplete)
    as (args & Hargs & _ & Hrun).
  exists args. split; [exact Hargs |].
  assert (Hdb : a_database args = database) by apply Hargs.
  specialize (Hrun e (Hrefuse args Hdb)). step Hrun.
  unfold failure_message, failure_log, connection_log.
  destruct (is_psycopg2_error e); reflexivity.
Qed.

Lemma refused_connection_reported_witness :
  exists args,
    execute_sql Double.plain_upper Double.writable Scenario.unreachable
      (lit "db") (lit "SELECT 1") init
    = (Return (error_response (lit "Database error: connection refused")),
       {| trace :=
            [EvConnect args false;
             EvLogError (lit "Database connection error: connection refused");
             EvLogError (lit "Database error: connection refused")];
          cursor := new_cursor |}).
Proof.
  destruct (refused_connection_reported Double.plain_upper Double.writable
              Scenario.unreachable (lit "db") (lit "SELECT 1")
              (Psycopg2Error (lit "connection refused")))
    as (args & _ & E).
  - reflexivity.
  - repeat split; discriminate.
  - intros args _. reflexivity.
  - exists args. exact E.
Defined.

(* ================================================================== *)
(** * Failures after the connection *)

(** What the handlers of [execute_sql] do with [e]. *)
Ltac handled e :=
  unfold failure_message, failure_log; destruct e; reflexivity.

Lemma reach_cursor config srv database :
  complete config -> accepts srv database ->
  srv_fault srv CallCursor = None ->
  exists args,
    configured config database args
    /\ forall (K : M Response) h,
        try_except (get_connection config srv database ;; conn_cursor srv ;; K)
                   h init
        = try_except K h {| trace := [EvConnect args true; EvCursor];
                            cursor := new_cursor |}.
Proof.
  intros Hcomplete Hacc Hcur.
  destruct (connect_refused config srv database init Hcomplete)
    as (args & Hargs & Hrun & _).
  exists args. split; [exact Hargs |]. intros K h.
  assert (Hdb : a_database args = database) by apply Hargs.
  specialize (Hrun (Hacc args Hdb)). step Hrun.
  pose proof (conn_cursor_run srv (logged init [EvConnect args true])) as E.
  rewrite Hcur in E. step E. reflexivity.
Qed.

(** X6.  If the server rejects [SET statement_timeout], the caller's
    query is never sent: the call returns the error response for that
    failure after one statement, and does not close the connection. *)
Theorem timeout_refused_skips_query up config srv database query e :
  passes_gate up config query = true ->
  complete config -> accepts srv database ->
  srv_fault srv CallCursor = None ->
  let ms := config_get (query_timeout config) 30 * 1000 in
  srv_run srv (set_timeout ms) = Raises e ->
  exists args,
    configured config database args
    /\ execute_sql up config srv database query init
       = (Return (error_response (failure_message e)),
          {| trace := [EvConnect args true; EvCursor;
                       EvExecute (set_timeout ms);
                       EvLogError (failure_log e)];
             cursor := new_cursor |}).
Proof.
  intros Hgate Hcomplete Hacc Hcur ms Hset.
  destruct (reach_cursor config srv database Hcomplete Hacc Hcur)
    as (args & Hargs & Hrun).
  exists args. split; [exact Hargs |].
  unfold execute_sql, execute_sql_try. rewrite (gate_open _ _ _ Hgate), Hrun. cbv zeta.
  fold ms. fold (set_timeout ms).
  match goal with
  | |- context [try_except (bind (cursor_execute srv ?s) _) _ ?w] =>
      pose proof (cursor_execute_run srv s w) as E
  end.
  rewrite Hset in E. step E. cbn [executed trace app]. handled e.
Qed.

Lemma timeout_refused_skips_query_witness :
  exists args w',
    execute_sql Double.plain_upper Double.writable Scenario.no_settings
      (lit "db") (lit "SELECT id FROM t ORDER BY id") init
    = (Return (error_response (lit "Database error: permission denied")), w')
    /\ trace w'
       = [EvConnect args true; EvCursor;
          EvExecute (lit "SET statement_timeout = 30000");
          EvLogError (lit "Database error: permission denied")].
Proof.
  destruct (timeout_refused_skips_query Double.plain_upper Double.writable
              Scenario.no_settings (lit "db")
              (lit "SELECT id FROM t ORDER BY id")
              (Psycopg2Error (lit "permission denied")))
    as (args & _ & E).
  - reflexivity.
  - repeat split; discriminate.
  - intros args _. reflexivity.
  - reflexivity.
  - reflexivity.
  - exists args. eexists. split; [exact E | reflexivity].
Defined.

(** X7.  When the server raises on the caller's query, the call returns
    the error response for that exception: [Database error: ] and the
    text of a driver error, [Error: ] and the text of any other.  It has
    executed two statements, logged one line, and not closed the
    connection. *)
Theorem failed_query_reported up config srv database query e :
  passes_gate up config query = true ->
  complete config -> accepts srv database ->
  srv_fault srv CallCursor = None ->
  let ms := config_get (query_timeout config) 30 * 1000 in
  executes srv (set_timeout ms) ->
  srv_run srv query = Raises e ->
  exists args w',
    a_database args = database
    /\ execute_sql up config srv database query init
       = (Return (error_response (failure_message e)), w')
    /\ trace w'
       = [EvConnect args true; EvCursor; EvExecute (set_timeout ms);
          EvExecute query; EvLogError (failure_log e)].
Proof.
  intros Hgate Hcomplete Hacc Hcur ms Hset Hq.
  to_query Hgate Hcomplete Hacc Hcur Hset args c0 Hdb E.
  rewrite Hq in E. exists args.
  exists (logged (classifying args ms query c0) [EvLogError (failure_log e)]).
  split; [exact Hdb |].
  split; [etransitivity; [exact E |] |].
  - handled e.
  - reflexivity.
Qed.

Lemma failed_query_reported_witness :
  exists args w',
    execute_sql Double.plain_upper Double.writable Double.server
      (lit "db") (lit "SELEC 1") init
    = (Return (error_response (lit "Database error: syntax error")), w')
    /\ trace w'
       = [EvConnect args true; EvCursor;
          EvExecute (lit "SET statement_timeout = 30000");
          EvExecute (lit "SELEC 1");
          EvLogError (lit "Database error: syntax error")].
Proof.
  destruct (failed_query_reported Double.plain_upper Double.writable
              Double.server (lit "db") (lit "SELEC 1")
              (Psycopg2Error (lit "syntax error")))
    as (args & w' & _ & E & Ht).
  - reflexivity.
  - repeat split; discriminate.
  - intros args _. reflexivity.
  - reflexivity.
  - intros e H. vm_compute in H. discriminate H.
  - reflexivity.
  - exists args, w'. split; [exact E | exact Ht].
Defined.

(** X8.  When [commit] fails after a statement without result set, the
    call returns the error response for that failure, although the
    server has run the statement, and does not close the connection. *)
Theorem failed_commit_reported up config srv database query affected e :
  passes_gate up config query = true ->
  complete config -> accepts srv database ->
  srv_fault srv CallCursor = None ->
  let ms := config_get (query_timeout config) 30 * 1000 in
  executes srv (set_timeout ms) ->
  srv_run srv query = Command affected ->
  srv_fault srv CallCommit = Some e ->
  exists args w',
    a_database args = database
    /\ execute_sql up config srv database query init
       = (Return (error_response (failure_message e)), w')
    /\ trace w'
       = [EvConnect args true; EvCursor; EvExecute (set_timeout ms);
          EvExecute query; EvCommit; EvLogError (failure_log e)].
Proof.
  intros Hgate Hcomplete Hacc Hcur ms Hset Hq Hcommit.
  to_query Hgate Hcomplete Hacc Hcur Hset args c0 Hdb E.
  rewrite Hq in E. exists args.
  exists (logged (classifying args ms query (executed (Command affected) c0))
                 [EvCommit; EvLogError (failure_log e)]).
  split; [exact Hdb |].
  split; [etransitivity; [exact E |] |].
  - cbn [executed]. unfold conn_commit, driver_call, classifying, logged.
    plumb. cbn [truthy app]. rewrite Hcommit.
    unfold failure_message, failure_log. destruct e; reflexivity.
  - reflexivity.
Qed.

Lemma failed_commit_reported_witness :
  exists args w',
    execute_sql Double.plain_upper Double.writable Scenario.no_commit
      (lit "db") (lit "INSERT INTO t(id) VALUES (6)") init
    = (Return (error_response (lit "Database error: connection lost")), w')
    /\ trace w'
       = [EvConnect args true; EvCursor;
          EvExecute (lit "SET statement_timeout = 30000");
          EvExecute (lit "INSERT INTO t(id) VALUES (6)");
          EvCommit;
          EvLogError (lit "Database error: connection lost")].
Proof.
  destruct (failed_commit_reported Double.plain_upper Double.writable
              Scenario.no_commit (lit "db")
              (lit "INSERT INTO t(id) VALUES (6)") (Some 1)
              (Psycopg2Error (lit "connection lost")))
    as (args & w' & _ & E & Ht).
  - reflexivity.
  - repeat split; discriminate.
  - intros args _. reflexivity.
  - reflexivity.
  - intros e H. vm_compute in H. discriminate H.
  - reflexivity.
  - reflexivity.
  - exists args, w'. split; [exact E | exact Ht].
Defined.

(* ================================================================== *)
(** * Which branch commits *)


Section Branches.

Context (up : N -> str) (config : Config) (srv : Server).
Context (database : str).

Hypothesis Hcomplete : complete config.
Hypothesis Hacc : accepts srv database.
Hypothesis Hsound : sound srv.
Hypothesis Hset :
  executes srv (set_timeout (config_get (query_timeout config) 30 * 1000)).





End Branches.





(* ================================================================== *)
(** * What a successful response has behind it *)

Lemma complete_or_not config : complete config \/ ~ complete config.
Proof.
  unfold complete.
  destruct (host config), (port config), (user config), (password config);
    try (left; repeat split; discriminate);
    right; intros (H1 & H2 & H3 & H4); congruence.
Qed.

Lemma get_connection_incomplete config srv database w :
  ~ complete config ->
  exists key,
    get_connection config srv database w = (Raise (KeyError key), w)
    /\ In key [lit "host"; lit "port"; lit "user"; lit "password"].
Proof.
  intro Hmissing. unfold get_connection, complete in *.
  destruct (host config); [| exists (lit "host")];
    (destruct (port config); [| try exists (lit "port")]);
    (destruct (user config); [| try exists (lit "user")]);
    (destruct (password config); [| try exists (lit "password")]).
  1: { exfalso. apply Hmissing. repeat split; discriminate. }
  all: split; [plumb; destruct w; reflexivity | cbn [In]; tauto].
Qed.

Lemma get_connection_returns config srv database w w' :
  get_connection config srv database w = (Return tt, w') ->
  exists args,
    configured config database args /\ w' = logged w [EvConnect args true].
Proof.
  intro H. destruct (complete_or_not config) as [Hc | Hc].
  - destruct (connect_refused config srv database w Hc)
      as (args & Hargs & Hok & Hfail).
    exists args. split; [exact Hargs |].
    destruct (srv_connect srv args) as [e |].
    + rewrite (Hfail e eq_refl) in H. discriminate H.
    + rewrite (Hok eq_refl) in H. inversion H. reflexivity.
  - destruct (get_connection_incomplete config srv database w Hc)
      as (key & E & _).
    rewrite E in H. discriminate H.
Qed.

Lemma driver_call_returns srv c e w w' :
  driver_call srv c e w = (Return tt, w') -> w' = logged w [e].
Proof.
  rewrite driver_call_run. destruct (srv_fault srv c); intro H;
    inversion H. reflexivity.
Qed.

Lemma conn_cursor_returns srv w w' :
  conn_cursor srv w = (Return tt, w') ->
  w' = {| trace := trace w ++ [EvCursor]; cursor := new_cursor |}.
Proof.
  rewrite conn_cursor_run. destruct (srv_fault srv CallCursor); intro H;
    inversion H. reflexivity.
Qed.

Lemma cursor_execute_returns srv stmt w w' :
  cursor_execute srv stmt w = (Return tt, w') ->
  trace w' = trace w ++ [EvExecute stmt]
  /\ cursor w' = executed (srv_run srv stmt) (cursor w).
Proof.
  rewrite cursor_execute_run. destruct (srv_run srv stmt); intro H;
    inversion H; split; reflexivity.
Qed.

Lemma fetch_returns srv size n w fetched w' :
  fetch srv size n w = (Return fetched, w') ->
  trace w' = trace w ++ [EvFetch size].
Proof.
  unfold fetch, bind. rewrite driver_call_run.
  destruct (srv_fault srv CallFetch); [discriminate |].
  plumb. cbn [logged cursor]. destruct (results (cursor w)); [| discriminate].
  intro H. inversion H. reflexivity.
Qed.

Lemma fetchmany_returns srv size w fetched w' :
  cursor_fetchmany srv size w = (Return fetched, w') ->
  trace w' = trace w ++ [EvFetch (Some size)].
Proof.
  unfold cursor_fetchmany. destruct (fits_long size).
  - apply fetch_returns.
  - plumb. discriminate.
Qed.

Lemma error_is_not_success msg : status (error_response msg) <> lit "success".
Proof. cbn [status error_response]. intro H. cbv in H. discriminate H. Qed.

(** X13.  A response with status success has one connection behind it,
    opened with the configured arguments, and that connection has been
    closed, once, as the last thing the call did.  Between the opening
    and the closes lie the time-out, the caller's query, and either one
    fetch or one commit. *)
Theorem success_has_closed up config srv database query r w' :
  execute_sql up config srv database query init = (Return r, w') ->
  status r = lit "success" ->
  exists args between,
    configured config database args
    /\ trace w'
       = [EvConnect args true; EvCursor;
          EvExecute (set_timeout (config_get (query_timeout config) 30 * 1000));
          EvExecute query; between; EvCursorClose; EvClose]
    /\ (between = EvCommit
        \/ between = EvFetch (Some (config_get (max_rows config) 1000)))
    /\ acquisitions (trace w') = 1%nat
    /\ closes (trace w') = 1%nat.
Proof.
  intros Hrun Hs.
  assert (exists args between,
    configured config database args
    /\ trace w'
       = [EvConnect args true; EvCursor;
          EvExecute (set_timeout (config_get (query_timeout config) 30 * 1000));
          EvExecute query; between; EvCursorClose; EvClose]
    /\ (between = EvCommit
        \/ between = EvFetch (Some (config_get (max_rows config) 1000))))
    as (args & between & Hargs & Ht & Hb).
  { unfold execute_sql, execute_sql_try in Hrun.
    match type of Hrun with
    | try_except ?b ?h init = _ =>
        unfold try_except in Hrun at 1;
        destruct (b init) as [[r0 | e] w0] eqn:E
    end.
    - inversion Hrun; subst r0 w0; clear Hrun.
      destruct (_ && _).
      + inversion E; subst r. destruct (error_is_not_success _ Hs).
      + apply bind_returns in E as ([] & w1 & E1 & E).
        apply bind_returns in E as ([] & w2 & E2 & E).
        cbv zeta in E.
        apply bind_returns in E as ([] & w3 & E3 & E).
        apply bind_returns in E as ([] & w4 & E4 & E).
        apply bind_returns in E as (c & w5 & E5 & E).
        inversion E5; subst c w5; clear E5.
        apply get_connection_returns in E1 as (args & Hargs & ->).
        apply conn_cursor_returns in E2. subst w2.
        apply cursor_execute_returns in E3 as (Ht3 & _).
        apply cursor_execute_returns in E4 as (Ht4 & _).
        cbn [trace logged init app] in Ht3. rewrite Ht3 in Ht4.
        cbn [app] in Ht4.
        exists args.
        destruct (truthy (description (cursor w4))).
        * apply bind_returns in E as (fetched & w6 & E6 & E).
          apply bind_returns in E as (c' & w7 & E7 & E).
          inversion E7; subst c' w7; clear E7.
          apply bind_returns in E as ([] & w8 & E8 & E).
          apply bind_returns in E as ([] & w9 & E9 & E).
          inversion E; subst r w'; clear E.
          apply fetchmany_returns in E6.
          apply driver_call_returns in E8. apply driver_call_returns in E9.
          subst w9 w8. cbn [trace logged]. rewrite E6, Ht4.
          eexists. split; [exact Hargs |]. split; [reflexivity |].
          right. reflexivity.
        * apply bind_returns in E as ([] & w6 & E6 & E).
          apply bind_returns in E as (c' & w7 & E7 & E).
          inversion E7; subst c' w7; clear E7.
          apply bind_returns in E as ([] & w8 & E8 & E).
          apply bind_returns in E as ([] & w9 & E9 & E).
          inversion E; subst r w'; clear E.
          apply driver_call_returns in E6.
          apply driver_call_returns in E8. apply driver_call_returns in E9.
          subst w9 w8 w6. cbn [trace logged]. rewrite Ht4.
          eexists. split; [exact Hargs |]. split; [reflexivity |].
          left. reflexivity.
    - exfalso. destruct (is_psycopg2_error e); plumb;
        inversion Hrun; subst r; exact (error_is_not_success _ Hs). }
  exists args, between. repeat split; try assumption; try apply Hargs.
  - rewrite Ht. destruct Hb as [-> | ->]; reflexivity.
  - rewrite Ht. destruct Hb as [-> | ->]; reflexivity.
Qed.

Lemma success_has_closed_witness :
  exists r w',
    execute_sql Double.plain_upper Double.writable Double.server
      (lit "db") (lit "INSERT INTO t(id) VALUES (6)") init = (Return r, w')
    /\ acquisitions (trace w') = 1%nat
    /\ closes (trace w') = 1%nat.
Proof.
  exists {| status := lit "success";
            message := lit "Query executed successfully. 1 rows affected.";
            rows := []; row_count := 1; columns := [] |}.
  eexists. split; [vm_compute; reflexivity |].
  match goal with
  | |- acquisitions (trace ?w) = _ /\ _ =>
      destruct (success_has_closed Double.plain_upper Double.writable
                  Double.server (lit "db")
                  (lit "INSERT INTO t(id) VALUES (6)")
                  {| status := lit "success";
                     message :=
                       lit "Query executed successfully. 1 rows affected.";
                     rows := []; row_count := 1; columns := [] |} w)
        as (args & between & _ & _ & _ & Ha & Hc)
  end.
  - vm_compute. reflexivity.
  - reflexivity.
  - split; [exact Ha | exact Hc].
Defined.

(* ================================================================== *)
(** * One connection for a call *)

Lemma emits_ret {A} P (a : A) : emits P (ret a).
Proof. intro w. exists []. split; [symmetry; apply app_nil_r | constructor]. Qed.

Lemma emits_raise {A} P e : emits P (@raise A e).
Proof. intro w. exists []. split; [symmetry; apply app_nil_r | constructor]. Qed.

Lemma emits_record (P : Event -> Prop) e : P e -> emits P (record e).
Proof. intros He w. exists [e]. split; [reflexivity | repeat constructor; exact He]. Qed.

Lemma emits_get_cursor P : emits P get_cursor.
Proof. intro w. exists []. split; [symmetry; apply app_nil_r | constructor]. Qed.

Lemma emits_set_cursor P c : emits P (set_cursor c).
Proof. intro w. exists []. split; [symmetry; apply app_nil_r | constructor]. Qed.

Lemma emits_bind {A B} P (c : M A) (k : A -> M B) :
  emits P c -> (forall a, emits P (k a)) -> emits P (bind c k).
Proof.
  intros Hc Hk w. unfold bind. destruct (Hc w) as (t1 & H1 & P1).
  destruct (c w) as [[a | e] w1]; cbn [snd] in *.
  - destruct (Hk a w1) as (t2 & H2 & P2). exists (t1 ++ t2). split.
    + rewrite H2, H1. symmetry. apply app_assoc.
    + apply Forall_app. split; assumption.
  - exists t1. split; assumption.
Qed.

Lemma emits_try {A} P (body : M A) (handler : exn -> M A) :
  emits P body -> (forall e, emits P (handler e)) ->
  emits P (try_except body handler).
Proof.
  intros Hc Hk w. unfold try_except. destruct (Hc w) as (t1 & H1 & P1).
  destruct (body w) as [[a | e] w1]; cbn [snd] in *.
  - exists t1. split; assumption.
  - destruct (Hk e w1) as (t2 & H2 & P2). exists (t1 ++ t2). split.
    + rewrite H2, H1. symmetry. apply app_assoc.
    + apply Forall_app. split; assumption.
Qed.

Create HintDb emits.
#[local] Hint Resolve emits_ret emits_raise emits_get_cursor
  emits_set_cursor : emits.

Lemma emits_logger_error (P : Event -> Prop) msg :
  P (EvLogError msg) -> emits P (logger_error msg).
Proof. apply emits_record. Qed.

Lemma emits_driver_call (P : Event -> Prop) srv c e :
  P e -> emits P (driver_call srv c e).
Proof.
  intro He. unfold driver_call. apply emits_bind; [apply emits_record, He |].
  intros _. destruct (srv_fault srv c); auto with emits.
Qed.

Lemma emits_execute (P : Event -> Prop) srv stmt :
  P (EvExecute stmt) -> emits P (cursor_execute srv stmt).
Proof.
  intro He. unfold cursor_execute.
  apply emits_bind; [apply emits_record, He |].
  intros _. destruct (srv_run srv stmt); auto with emits.
Qed.

Lemma emits_fetch (P : Event -> Prop) srv size n :
  P (EvFetch size) -> emits P (fetch srv size n).
Proof.
  intro He. unfold fetch.
  apply emits_bind; [apply emits_driver_call, He |]. intros _.
  apply emits_bind; [apply emits_get_cursor |]. intro c.
  destruct (results c); [| apply emits_raise].
  apply emits_bind; auto with emits.
Qed.

Lemma emits_database_names P rows : emits P (database_names rows).
Proof.
  induction rows as [| row rows IH]; cbn [database_names];
    [apply emits_ret |].
  destruct (dict_get _ row); [| apply emits_raise].
  apply emits_bind; [exact IH | intro; apply emits_ret].
Qed.

(** After the connection, nothing a call does is a call of [connect]. *)
Ltac quiet :=
  repeat first
    [ solve [ auto with emits ]
    | apply emits_record; exact I
    | apply emits_logger_error; exact I
    | apply emits_driver_call; exact I
    | apply emits_execute; exact I
    | apply emits_fetch; exact I
    | apply emits_database_names
    | apply emits_bind; [| intros ]
    | apply emits_try; [| intros ]
    | match goal with
      | |- emits _ (match ?x with _ => _ end) => destruct x
      end ].

Lemma quiet_count t : Forall not_connect t -> connect_calls t = 0%nat.
Proof.
  unfold connect_calls. induction 1 as [| e t He _ IH]; [reflexivity |].
  cbn [filter]. destruct e; try exact IH. destruct He.
Qed.

Lemma connect_calls_app t1 t2 :
  connect_calls (t1 ++ t2) = (connect_calls t1 + connect_calls t2)%nat.
Proof. unfold connect_calls. rewrite filter_app, length_app. reflexivity. Qed.

(** The trace of a run that continues quietly from [w]. *)
Ltac continue_quietly t Ht Hquiet :=
  match goal with
  | |- context [trace (snd (?c ?w))] =>
      let H := fresh in
      assert (H : emits not_connect c);
      [ unfold conn_cursor, cursor_fetchmany, cursor_fetchall, cursor_close,
          conn_close, conn_commit; quiet
      | destruct (H w) as (t & Ht & Hquiet); clear H; rewrite Ht;
        cbn [trace logged] ]
  end.

(** X14.  A call of [execute_sql] calls [connect] exactly once when it
    passes the policy gate and finds the four required keys, and not at
    all otherwise, whatever the server then does. *)
Theorem connects_exactly_once up config srv database query :
  let calls :=
    connect_calls (trace (snd (execute_sql up config srv database query init)))
  in
  (passes_gate up config query = false -> calls = 0%nat)
  /\ (~ complete config -> calls = 0%nat)
  /\ (passes_gate up config query = true -> complete config ->
      calls = 1%nat).
Proof.
  intro calls. subst calls. split; [| split].
  - intro Hgate. unfold passes_gate in Hgate. apply negb_false_iff in Hgate.
    unfold execute_sql, execute_sql_try. rewrite Hgate. reflexivity.
  - intro Hmissing. unfold execute_sql, execute_sql_try.
    destruct (_ && _); [reflexivity |].
    destruct (get_connection_incomplete config srv database init Hmissing)
      as (key & E & _).
    step E. reflexivity.
  - intros Hgate Hcomplete. unfold execute_sql, execute_sql_try.
    rewrite (gate_open _ _ _ Hgate).
    destruct (connect_refused config srv database init Hcomplete)
      as (args & _ & Hok & Hfail).
    destruct (srv_connect srv args) as [e |].
    + specialize (Hfail e eq_refl). step Hfail.
      continue_quietly t Ht Hquiet.
      rewrite connect_calls_app, (quiet_count t Hquiet).
      unfold connection_log. destruct (is_psycopg2_error e); reflexivity.
    + specialize (Hok eq_refl). step Hok.
      continue_quietly t Ht Hquiet.
      rewrite connect_calls_app, (quiet_count t Hquiet). reflexivity.
Qed.

Lemma connects_exactly_once_witness :
  connect_calls
    (trace (snd (execute_sql Double.plain_upper Double.writable
                   Scenario.no_commit (lit "db")
                   (lit "INSERT INTO t(id) VALUES (6)") init)))
  = 1%nat.
Proof.
  apply (proj2 (proj2 (connects_exactly_once Double.plain_upper
                         Double.writable Scenario.no_commit (lit "db")
                         (lit "INSERT INTO t(id) VALUES (6)")))).
  - reflexivity.
  - repeat split; discriminate.
Defined.

(* ================================================================== *)
(** * [list_databases] and its connection *)

(** X15.  [list_databases] connects to the database [postgres], with
    the configured host, port, user and password and [query_timeout] as
    connect timeout, and calls [connect] once; [read_only] plays no part
    in it. *)
Theorem listing_connects_to_postgres config srv :
  complete config ->
  exists args opened rest,
    trace (snd (list_databases config srv init))
    = EvConnect args opened :: rest
    /\ configured config (lit "postgres") args
    /\ connect_calls (trace (snd (list_databases config srv init))) = 1%nat.
Proof.
  intro Hcomplete. unfold list_databases, list_databases_try.
  destruct (connect_refused config srv (lit "postgres") init Hcomplete)
    as (args & Hargs & Hok & Hfail).
  exists args.
  destruct (srv_connect srv args) as [e |].
  - specialize (Hfail e eq_refl). step Hfail.
    continue_quietly t Ht Hquiet.
    exists false, (connection_log e ++ t). rewrite <- app_assoc. cbn [app].
    split; [reflexivity |]. split; [exact Hargs |].
    change (EvConnect args false :: connection_log e ++ t)
      with ([EvConnect args false] ++ connection_log e ++ t).
    rewrite !connect_calls_app, (quiet_count t Hquiet).
    unfold connection_log. destruct (is_psycopg2_error e); reflexivity.
  - specialize (Hok eq_refl). step Hok.
    continue_quietly t Ht Hquiet.
    exists true, t. split; [reflexivity |]. split; [exact Hargs |].
    change (EvConnect args true :: t) with ([EvConnect args true] ++ t).
    rewrite connect_calls_app, (quiet_count t Hquiet). reflexivity.
Qed.

Lemma listing_connects_to_postgres_witness :
  exists args opened rest,
    trace (snd (list_databases Double.readonly Double.server init))
    = EvConnect args opened :: rest
    /\ a_database args = lit "postgres"
    /\ a_connect_timeout args = 5.
Proof.
  destruct (listing_connects_to_postgres Double.readonly Double.server)
    as (args & opened & rest & E & Hargs & _).
  - repeat split; discriminate.
  - exists args, opened, rest. split; [exact E |].
    split; apply Hargs.
Defined.

(** X16.  With a required key absent, [list_databases] returns status
    error with, as its message, the quoted name of the first key that
    is absent, in the order [host], [port], [user], [password], and no
    databases; it logs one line and does not call [connect]. *)
Theorem listing_without_keys config srv key :
  first_absent config = Some key ->
  list_databases config srv init
  = (Return {| l_status := lit "error";
               l_databases := [];
               l_count := None;
               l_message := Some (lit "'" ++ key ++ lit "'") |},
     {| trace := [EvLogError (lit "Error listing databases: "
                              ++ lit "'" ++ key ++ lit "'")];
        cursor := new_cursor |}).
Proof.
  intro Hkey.
  pose proof (get_connection_absent config srv (lit "postgres") init key
                Hkey) as E.
  unfold list_databases, list_databases_try. step E. reflexivity.
Qed.

Lemma listing_without_keys_witness :
  list_databases Double.unlocked Double.server init
  = (Return {| l_status := lit "error";
               l_databases := [];
               l_count := None;
               l_message := Some (lit "'password'") |},
     {| trace := [EvLogError (lit "Error listing databases: 'password'")];
        cursor := new_cursor |}).
Proof.
  apply (listing_without_keys Double.unlocked Double.server (lit "password")).
  reflexivity.
Defined.

(** X17.  When [connect] fails, [list_databases] returns status error
    with the text of the exception, unprefixed, as message and no
    databases, having made that single driver call. *)
Theorem listing_refused_connection config srv e :
  complete config ->
  (forall args, a_database args = lit "postgres" ->
                srv_connect srv args = Some e) ->
  exists args,
    configured config (lit "postgres") args
    /\ list_databases config srv init
       = (Return {| l_status := lit "error";
                    l_databases := [];
                    l_count := None;
                    l_message := Some (str_exn e) |},
          {| trace := EvConnect args false
                      :: connection_log e
                      ++ [EvLogError (lit "Error listing databases: "
                                      ++ str_exn e)];
             cursor := new_cursor |}).
Proof.
  intros Hcomplete Hrefuse.
  destruct (connect_refused config srv (lit "postgres") init Hcomplete)
    as (args & Hargs & _ & Hrun).
  exists args. split; [exact Hargs |].
  assert (Hdb : a_database args = lit "postgres") by apply Hargs.
  specialize (Hrun e (Hrefuse args Hdb)). unfold list_databases, list_databases_try.
  step Hrun. unfold connection_log.
  destruct (is_psycopg2_error e); reflexivity.
Qed.

Lemma listing_refused_connection_witness :
  exists args w',
    list_databases Double.writable Scenario.unreachable init
    = (Return {| l_status := lit "error";
                 l_databases := [];
                 l_count := None;
                 l_message := Some (lit "connection refused") |}, w')
    /\ connect_calls (trace w') = 1%nat
    /\ configured Double.writable (lit "postgres") args.
Proof.
  destruct (listing_refused_connection Double.writable Scenario.unreachable
              (Psycopg2Error (lit "connection refused")))
    as (args & Hargs & E).
  - repeat split; discriminate.
  - intros args _. reflexivity.
  - exists args. eexists. split; [exact E |]. split; [reflexivity | exact Hargs].
Defined.

Lemma database_names_of_values values w :
  database_names
    (map (fun v => [(lit "database_name", v)]) values) w
  = (Return values, w).
Proof.
  induction values as [| v values IH]; cbn [map database_names];
    [reflexivity |].
  cbn [dict_get]. rewrite str_eqb_refl. unfold bind. rewrite IH. reflexivity.
Qed.

(** X18.  [list_databases] neither filters nor sorts: when the server
    answers with one column [database_name], the response lists the
    values of that column as they come, in the server's order, and
    [count] is their number. *)
Theorem listing_keeps_server_order config srv type values :
  complete config -> accepts srv (lit "postgres") -> sound srv ->
  srv_run srv list_databases_query
  = Tuples [{| col_name := lit "database_name"; type_code := type |}]
           (map (fun v => [v]) values) ->
  exists w',
    list_databases config srv init
    = (Return {| l_status := lit "success";
                 l_databases := values;
                 l_count := Some (Z.of_nat (List.length values));
                 l_message := None |}, w')
    /\ closes (trace w') = 1%nat.
Proof.
  intros Hcomplete Hacc Hsound Hq. unfold list_databases, list_databases_try.
  destruct (get_connection_run config srv (lit "postgres") init Hcomplete)
    as (args & Hdb & _ & _ & _ & _ & _ & Hrun).
  rewrite (Hacc args Hdb) in Hrun. step Hrun.
  pose proof (conn_cursor_run srv (logged init [EvConnect args true])) as E.
  rewrite (Hsound CallCursor) in E. step E. clear E.
  match goal with
  | |- context [try_except (bind (cursor_execute srv ?s) _) _ ?w] =>
      pose proof (cursor_execute_run srv s w) as E
  end.
  rewrite Hq in E. step E. clear E.
  eexists. split.
  - apply try_returns.
    unfold cursor_fetchall, fetch, cursor_close, conn_close, driver_call,
      bind at 1 2 3 4 5 6 7 8.
    plumb. rewrite !Hsound. unfold described.
    cbn [executed results description rowcount logged trace cursor init app].
    rewrite firstn_all, skipn_all, map_map.
    change (map (fun x : Value => real_dict_row _ [x]) values)
      with (map (fun v => [(lit "database_name", v)]) values).
    rewrite database_names_of_values. reflexivity.
  - reflexivity.
Qed.

Lemma listing_keeps_server_order_witness :
  exists w',
    list_databases Double.writable Scenario.unordered init
    = (Return {| l_status := lit "success";
                 l_databases := [VStr (lit "zoo"); VStr (lit "template1");
                                 VStr (lit "app")];
                 l_count := Some 3;
                 l_message := None |}, w').
Proof.
  destruct (listing_keeps_server_order Double.writable Scenario.unordered 19
              [VStr (lit "zoo"); VStr (lit "template1"); VStr (lit "app")])
    as (w' & E & _).
  - repeat split; discriminate.
  - intros args _. reflexivity.
  - intro c. reflexivity.
  - reflexivity.
  - exists w'. exact E.
Defined.

Lemma database_names_returns rows w values w' :
  database_names rows w = (Return values, w') -> w' = w.
Proof.
  revert values w'. induction rows as [| row rows IH]; intros values w' H;
    cbn [database_names] in H.
  - inversion H. reflexivity.
  - destruct (dict_get _ row); [| discriminate H].
    apply bind_returns in H as (vs & w1 & E & H).
    inversion H; subst. exact (IH _ _ E).
Qed.

(** X19.  A response of [list_databases] with status success has its
    connection closed behind it: the call connected, executed the
    introspection query and nothing else, fetched, and closed the cursor
    and the connection.  Its [count] is the length of [databases], and
    it has no message. *)
Theorem listing_success_has_closed config srv l w' :
  list_databases config srv init = (Return l, w') ->
  l_status l = lit "success" ->
  exists args,
    configured config (lit "postgres") args
    /\ trace w'
       = [EvConnect args true; EvCursor; EvExecute list_databases_query;
          EvFetch None; EvCursorClose; EvClose]
    /\ l_count l = Some (Z.of_nat (List.length (l_databases l)))
    /\ l_message l = None
    /\ closes (trace w') = 1%nat.
Proof.
  intros Hrun Hs. unfold list_databases, list_databases_try in Hrun.
  match type of Hrun with
  | try_except ?b ?h init = _ =>
      unfold try_except in Hrun at 1;
      destruct (b init) as [[l0 | e] w0] eqn:E
  end.
  - inversion Hrun; subst l0 w0; clear Hrun.
    apply bind_returns in E as ([] & w1 & E1 & E).
    apply bind_returns in E as ([] & w2 & E2 & E).
    apply bind_returns in E as ([] & w3 & E3 & E).
    apply bind_returns in E as (fetched & w4 & E4 & E).
    apply bind_returns in E as ([] & w5 & E5 & E).
    apply bind_returns in E as ([] & w6 & E6 & E).
    apply bind_returns in E as (databases & w7 & E7 & E).
    inversion E; subst l w7; clear E.
    apply get_connection_returns in E1 as (args & Hargs & ->).
    apply conn_cursor_returns in E2. subst w2.
    apply cursor_execute_returns in E3 as (Ht3 & _).
    apply fetch_returns in E4.
    apply driver_call_returns in E5. apply driver_call_returns in E6.
    apply database_names_returns in E7.
    subst w' w6 w5. cbn [trace logged init app] in *.
    rewrite E4, Ht3. exists args. split; [exact Hargs |]. repeat split.
  - exfalso. plumb. inversion Hrun; subst l. cbv in Hs. discriminate Hs.
Qed.

Lemma listing_success_has_closed_witness :
  exists l w',
    list_databases Double.writable Double.server init = (Return l, w')
    /\ l_count l = Some 3
    /\ closes (trace w') = 1%nat.
Proof.
  exists {| l_status := lit "success";
            l_databases := [VStr (lit "hr"); VStr (lit "postgres");
                            VStr (lit "sales")];
            l_count := Some 3; l_message := None |}.
  eexists. split; [vm_compute; reflexivity |].
  match goal with
  | |- _ /\ closes (trace ?w) = _ =>
      destruct (listing_success_has_closed Double.writable Double.server
                  {| l_status := lit "success";
                     l_databases := [VStr (lit "hr"); VStr (lit "postgres");
                                     VStr (lit "sales")];
                     l_count := Some 3; l_message := None |} w)
        as (args & _ & _ & Hcount & _ & Hc)
  end.
  - vm_compute. reflexivity.
  - reflexivity.
  - split; [exact Hcount | exact Hc].
Defined.

(* ================================================================== *)
(** * Rows as dicts *)

Lemma str_eqb_eq a b : str_eqb a b = true <-> a = b.
Proof.
  revert b. induction a as [| x a IH]; intros [| y b]; cbn [str_eqb];
    try (split; [discriminate | discriminate]); [tauto |].
  rewrite andb_true_iff, N.eqb_eq, IH. split.
  - intros [-> ->]. reflexivity.
  - intro H. injection H as -> ->. split; reflexivity.
Qed.

Lemma str_eqb_neq a b : a <> b -> str_eqb a b = false.
Proof.
  intro H. destruct (str_eqb a b) eqn:E; [| reflexivity].
  apply str_eqb_eq in E. contradiction.
Qed.

Lemma dict_get_absent k d : ~ In k (map fst d) -> dict_get k d = None.
Proof.
  induction d as [| [k' v'] d IH]; cbn [map fst In dict_get]; [reflexivity |].
  intro H. rewrite str_eqb_neq by (intro; subst; tauto). apply IH. tauto.
Qed.

Lemma dict_set_fresh k v d :
  ~ In k (map fst d) -> dict_set k v d = d ++ [(k, v)].
Proof.
  induction d as [| [k' v'] d IH]; cbn [map fst In dict_set app];
    [reflexivity |].
  intro H. rewrite str_eqb_neq by (intro; subst; tauto).
  rewrite IH by tauto. reflexivity.
Qed.

Lemma fold_dict_set_distinct items d :
  NoDup (map fst items) ->
  (forall k, In k (map fst items) -> ~ In k (map fst d)) ->
  fold_left (fun d kv => dict_set (fst kv) (snd kv) d) items d = d ++ items.
Proof.
  revert d. induction items as [| [k v] items IH]; intros d Hnd Hfresh;
    cbn [fold_left fst snd map] in *.
  - symmetry. apply app_nil_r.
  - inversion Hnd as [| ? ? Hk Hnd']; subst.
    rewrite dict_set_fresh by (apply Hfresh; left; reflexivity).
    rewrite IH; [rewrite <- app_assoc; reflexivity | exact Hnd' |].
    intros k' Hin. rewrite map_app, in_app_iff. cbn [map fst In].
    intros [H | [H | []]].
    + exact (Hfresh k' (or_intror Hin) H).
    + subst k'. exact (Hk Hin).
Qed.

Lemma dict_of_distinct items :
  NoDup (map fst items) -> dict_of items = items.
Proof.
  intro H. unfold dict_of. rewrite fold_dict_set_distinct; auto.
Qed.

Lemma combine_keys_distinct (names : list str) (tuple : list Value) :
  NoDup names -> NoDup (map fst (combine names tuple)).
Proof.
  revert tuple. induction names as [| n names IH]; intros [| v tuple] H;
    cbn [combine map fst]; try constructor.
  - inversion H as [| ? ? Hn Hnd]; subst. intro Hin. apply Hn.
    apply in_map_iff in Hin as ([k v'] & <- & Hin).
    exact (in_combine_l _ _ _ _ Hin).
  - inversion H; subst. apply IH. assumption.
Qed.

Section RowsAsDicts.

Context (up : N -> str) (config : Config) (srv : Server).
Context (database query : str).

Hypothesis Hgate : passes_gate up config query = true.
Hypothesis Hcomplete : complete config.
Hypothesis Hacc : accepts srv database.
Hypothesis Hsound : sound srv.
Hypothesis Hset :
  executes srv (set_timeout (config_get (query_timeout config) 30 * 1000)).

(** X20.  When the columns of the result set have distinct names, and
    [max_rows] is not negative and fits a C [long], each returned row
    is the list of its (name, value) pairs in column order: the dict
    the cursor builds and the copy [dict(row)] lose and reorder
    nothing. *)
Theorem rows_pair_names_with_values cols tuples :
  srv_run srv query = Tuples cols tuples ->
  cols <> [] ->
  NoDup (map col_name cols) ->
  0 <= config_get (max_rows config) 1000 <= LONG_MAX ->
  exists r w',
    execute_sql up config srv database query init = (Return r, w')
    /\ columns r = map col_name cols
    /\ rows r
       = map (combine (map col_name cols))
             (firstn (Z.to_nat (config_get (max_rows config) 1000)) tuples).
Proof.
  intros Hq Hcols Hnd [Hmax Hlong].
  assert (LONG_MIN <= config_get (max_rows config) 1000 <= LONG_MAX)
    as Hrange by (unfold LONG_MIN; lia).
  destruct (tuples_run up config srv database query Hgate Hcomplete Hacc
              Hsound Hset cols tuples Hq Hcols Hrange) as (w' & E & _).
  rewrite (firstn_capped tuples _ Hmax) in E.
  eexists _, w'. split; [exact E |]. cbn [columns rows].
  split; [reflexivity |]. rewrite map_map. apply map_ext. intro tuple.
  unfold real_dict_row.
  rewrite !dict_of_distinct; auto using combine_keys_distinct.
  rewrite dict_of_distinct; auto using combine_keys_distinct.
Qed.

End RowsAsDicts.

Lemma rows_pair_names_with_values_witness :
  exists r w',
    execute_sql Double.plain_upper (Double.capped 2) Double.server
      (lit "db") (lit "SELECT id FROM t ORDER BY id") init = (Return r, w')
    /\ rows r = [[(lit "id", VInt 1)]; [(lit "id", VInt 2)]].
Proof.
  destruct (rows_pair_names_with_values Double.plain_upper (Double.capped 2)
              Double.server (lit "db") (lit "SELECT id FROM t ORDER BY id"))
    with (cols := [Double.id_column])
         (tuples := [[VInt 1]; [VInt 2]; [VInt 3]; [VInt 4]; [VInt 5]])
    as (r & w' & E & _ & Hrows).
  - reflexivity.
  - repeat split; discriminate.
  - intros args _. reflexivity.
  - intro c. reflexivity.
  - intros e H. vm_compute in H. discriminate H.
  - reflexivity.
  - discriminate.
  - repeat constructor. intros [].
  - split; vm_compute; discriminate.
  - exists r, w'. split; [exact E | exact Hrows].
Defined.

Lemma str_eqb_spec a b : reflect (a = b) (str_eqb a b).
Proof.
  destruct (str_eqb a b) eqn:E; constructor.
  - apply str_eqb_eq. exact E.
  - intro H. apply str_eqb_eq in H. congruence.
Qed.

Lemma dict_get_set k k0 v0 d :
  dict_get k (dict_set k0 v0 d)
  = if str_eqb k k0 then Some v0 else dict_get k d.
Proof.
  induction d as [| [k' v'] d IH]; cbn [dict_set dict_get]; [reflexivity |].
  destruct (str_eqb_spec k0 k') as [<- | Hne]; cbn [dict_get].
  - destruct (str_eqb_spec k k0); reflexivity.
  - rewrite IH. destruct (str_eqb_spec k k') as [-> | _]; [| reflexivity].
    rewrite str_eqb_neq by congruence. reflexivity.
Qed.

Lemma dict_get_app k d1 d2 :
  dict_get k (d1 ++ d2)
  = match dict_get k d1 with Some v => Some v | None => dict_get k d2 end.
Proof.
  induction d1 as [| [k' v'] d1 IH]; cbn [app dict_get]; [reflexivity |].
  destruct (str_eqb k k'); [reflexivity | exact IH].
Qed.

Lemma dict_get_fold k items d :
  dict_get k (fold_left (fun d kv => dict_set (fst kv) (snd kv) d) items d)
  = match dict_get k (rev items) with
    | Some v => Some v
    | None => dict_get k d
    end.
Proof.
  revert d. induction items as [| [k0 v0] items IH]; intro d;
    cbn [fold_left rev fst snd]; [reflexivity |].
  rewrite IH, dict_get_app, dict_get_set. cbn [dict_get].
  destruct (dict_get k (rev items)); [reflexivity |].
  destruct (str_eqb k k0); reflexivity.
Qed.

Lemma dict_set_keys x k v d :
  In x (map fst (dict_set k v d)) -> x = k \/ In x (map fst d).
Proof.
  induction d as [| [k' v'] d IH]; cbn [dict_set map fst In].
  - intros [H | []]. left. congruence.
  - destruct (str_eqb_spec k k') as [<- | _]; cbn [map fst In].
    + intros [H | H]; [left; congruence | right; right; exact H].
    + intros [H | H]; [right; left; exact H |].
      destruct (IH H) as [-> | Hin]; [left; reflexivity | right; right; exact Hin].
Qed.

Lemma dict_set_distinct k v d :
  NoDup (map fst d) -> NoDup (map fst (dict_set k v d)).
Proof.
  induction d as [| [k' v'] d IH]; cbn [dict_set map fst]; intro H.
  - repeat constructor. intros [].
  - inversion H as [| ? ? Hk Hnd]; subst.
    destruct (str_eqb_spec k k') as [<- | Hne]; cbn [map fst].
    + constructor; assumption.
    + constructor; [| exact (IH Hnd)].
      intro Hin. apply dict_set_keys in Hin as [-> | Hin]; [congruence | tauto].
Qed.

Lemma dict_of_keys_distinct items : NoDup (map fst (dict_of items)).
Proof.
  unfold dict_of.
  assert (forall d, NoDup (map fst d) ->
            NoDup (map fst (fold_left
                              (fun d kv => dict_set (fst kv) (snd kv) d)
                              items d))) as H.
  { induction items as [| [k v] items IH]; intros d Hd; cbn [fold_left];
      [exact Hd |].
    apply IH, dict_set_distinct, Hd. }
  apply H. constructor.
Qed.

Lemma dict_get_dict_of k items :
  dict_get k (dict_of items) = dict_get k (rev items).
Proof.
  unfold dict_of. rewrite dict_get_fold. cbn [dict_get].
  destruct (dict_get k (rev items)); reflexivity.
Qed.

Lemma Forall2_map_left {A B} (R : B -> A -> Prop) (f : A -> B) l :
  (forall x, R (f x) x) -> Forall2 R (map f l) l.
Proof. intro H. induction l; cbn [map]; constructor; auto. Qed.

Section RowsOfAnyColumns.

Context (up : N -> str) (config : Config) (srv : Server).
Context (database query : str).

Hypothesis Hgate : passes_gate up config query = true.
Hypothesis Hcomplete : complete config.
Hypothesis Hacc : accepts srv database.
Hypothesis Hsound : sound srv.
Hypothesis Hset :
  executes srv (set_timeout (config_get (query_timeout config) 30 * 1000)).

(** X21.  Whatever the names of the columns, with a [max_rows] that is
    not negative and fits a C [long], a returned row has each key once,
    and under a name it holds the value of the last column of that
    name: where two columns share a name, [columns] lists the name
    twice and the row keeps only the later value. *)
Theorem rows_keep_last_of_a_name cols tuples :
  srv_run srv query = Tuples cols tuples ->
  cols <> [] ->
  0 <= config_get (max_rows config) 1000 <= LONG_MAX ->
  exists r w',
    execute_sql up config srv database query init = (Return r, w')
    /\ columns r = map col_name cols
    /\ Forall2
         (fun row tuple =>
            NoDup (map fst row)
            /\ forall k,
                dict_get k row
                = dict_get k (rev (combine (map col_name cols) tuple)))
         (rows r)
         (firstn (Z.to_nat (config_get (max_rows config) 1000)) tuples).
Proof.
  intros Hq Hcols [Hmax Hlong].
  assert (LONG_MIN <= config_get (max_rows config) 1000 <= LONG_MAX)
    as Hrange by (unfold LONG_MIN; lia).
  destruct (tuples_run up config srv database query Hgate Hcomplete Hacc
              Hsound Hset cols tuples Hq Hcols Hrange) as (w' & E & _).
  rewrite (firstn_capped tuples _ Hmax) in E.
  eexists _, w'. split; [exact E |]. cbn [columns rows].
  split; [reflexivity |]. rewrite map_map.
  apply Forall2_map_left. intro tuple. unfold real_dict_row.
  rewrite (dict_of_distinct (dict_of _)) by apply dict_of_keys_distinct.
  split; [apply dict_of_keys_distinct | intro k; apply dict_get_dict_of].
Qed.

End RowsOfAnyColumns.

Lemma rows_keep_last_of_a_name_witness :
  exists r w',
    execute_sql Double.plain_upper Double.writable Scenario.twins
      (lit "db") (lit "SELECT 1 AS a, 2 AS a") init = (Return r, w')
    /\ columns r = [lit "a"; lit "a"]
    /\ Forall2
         (fun row tuple =>
            NoDup (map fst row)
            /\ forall k,
                dict_get k row
                = dict_get k (rev (combine [lit "a"; lit "a"] tuple)))
         (rows r) [[VInt 1; VInt 2]].
Proof.
  destruct (rows_keep_last_of_a_name Double.plain_upper Double.writable
              Scenario.twins (lit "db") (lit "SELECT 1 AS a, 2 AS a"))
    with (cols := [{| col_name := lit "a"; type_code := 23 |};
                   {| col_name := lit "a"; type_code := 23 |}])
         (tuples := [[VInt 1; VInt 2]])
    as (r & w' & E & Hc & Hrows).
  - reflexivity.
  - repeat split; discriminate.
  - intros args _. reflexivity.
  - intro c. reflexivity.
  - intros e H. vm_compute in H. discriminate H.
  - reflexivity.
  - discriminate.
  - split; vm_compute; discriminate.
  - exists r, w'. split; [exact E |]. split; [exact Hc | exact Hrows].
Defined.
